(** * Gradient compression (horovod/tensorflow/compression.py)

    A shallow embedding of the three gradient compressors of
    [horovod/tensorflow/compression.py] -- [NoneCompressor],
    [FP16Compressor] and [INT8Compressor] -- together with the part of
    Python and of TensorFlow they call.

    TensorFlow is not part of the repository.  Its scalar arithmetic is taken
    as a parameter (the class [Numeric]); the compressors are written once
    over that class and then run under two instances of it:
    - [IEEE]: IEEE-754 binary arithmetic with round-to-nearest-even, from the
      standard library's [SpecFloat], in the format of each dtype;
    - [Exact]: exact rational arithmetic, the idealised reading in which no
      operation rounds. *)

From Stdlib Require Import ZArith QArith Qround Qabs List Bool Lia Psatz.
From Stdlib Require Import Floats.SpecFloat.
Import ListNotations.

Local Open Scope Z_scope.

(** ** Dtypes *)

(** The floating-point families of [tf.DType] ... *)
Inductive FloatKind := F16 | BF16 | F32 | F64.

(** ... and the integer ones. *)
Inductive IntKind := I8 | U8 | I16 | I32 | I64.

Inductive DType :=
| DFloat (k : FloatKind)
| DInt (k : IntKind).

Definition float16 := DFloat F16.
Definition bfloat16 := DFloat BF16.
Definition float32 := DFloat F32.
Definition float64 := DFloat F64.
Definition int8 := DInt I8.
Definition uint8 := DInt U8.
Definition int16 := DInt I16.
Definition int32 := DInt I32.
Definition int64 := DInt I64.

(** [tf.DType.is_floating] *)
Definition is_floating (d : DType) : bool :=
  match d with
  | DFloat _ => true
  | DInt _ => false
  end.

Definition int_bits (k : IntKind) : Z :=
  match k with
  | I8 | U8 => 8
  | I16 => 16
  | I32 => 32
  | I64 => 64
  end.

Definition int_signed (k : IntKind) : bool :=
  match k with
  | U8 => false
  | _ => true
  end.

(** Two's-complement wrap-around of an integer into the range of [k]. *)
Definition int_wrap (k : IntKind) (z : Z) : Z :=
  let m := 2 ^ int_bits k in
  if int_signed k then (z + m / 2) mod m - m / 2 else z mod m.

(** ** The numeric runtime *)

(** The scalar operations TensorFlow and Python floats provide.  Every
    operation that rounds takes the floating format it works in. *)
Class Numeric (F : Type) := {
  f_of_Z : FloatKind -> Z -> F;          (* integer to float *)
  f_cast : FloatKind -> F -> F;          (* float to float of another format *)
  f_add : FloatKind -> F -> F -> F;
  f_sub : FloatKind -> F -> F -> F;
  f_mul : FloatKind -> F -> F -> F;
  f_div : FloatKind -> F -> F -> F;
  f_round : FloatKind -> F -> F;         (* tf.math.round *)
  f_lt : F -> F -> bool;                 (* x < y *)
  f_trunc : F -> Z                       (* float to integer, toward zero *)
}.

(** ** Python values *)

Inductive PyExn := ZeroDivisionError | AttributeError.

Inductive PyResult (A : Type) :=
| Ok (a : A)
| Raise (e : PyExn).
Arguments Ok {A} a.
Arguments Raise {A} e.

Definition bind {A B} (r : PyResult A) (k : A -> PyResult B) : PyResult B :=
  match r with
  | Ok a => k a
  | Raise e => Raise e
  end.

Notation "x <- r ;; k" := (bind r (fun x => k))
  (at level 61, r at next level, right associativity).

(** A Python number: an [int] or a [float] (binary64). *)
Inductive PyNum (F : Type) :=
| PyInt (z : Z)
| PyFloat (x : F).
Arguments PyInt {F} z.
Arguments PyFloat {F} x.

(** A compression context as Python sees it: [None] or a [tf.DType]. *)
Inductive PyCtx :=
| PyNone
| PyDType (d : DType).

Section Python.
Context {F : Type} `{Numeric F}.

Definition py_float (p : PyNum F) : F :=
  match p with
  | PyInt z => f_of_Z F64 z
  | PyFloat x => x
  end.

(** [a / b] on two [int]s, Python 3 true division: the result is a float,
    the quotient rounded to binary64 (both operands of the source are far
    below [2^53], so converting them first loses nothing), and division by
    zero raises. *)
Definition py_truediv (a b : Z) : PyResult (PyNum F) :=
  if b =? 0 then Raise ZeroDivisionError
  else Ok (PyFloat (f_div F64 (f_of_Z F64 a) (f_of_Z F64 b))).

(** [a - b] *)
Definition py_sub (a b : PyNum F) : PyNum F :=
  match a, b with
  | PyInt x, PyInt y => PyInt (x - y)
  | _, _ => PyFloat (f_sub F64 (py_float a) (py_float b))
  end.

(** [a * b] *)
Definition py_mul (a b : PyNum F) : PyNum F :=
  match a, b with
  | PyInt x, PyInt y => PyInt (x * y)
  | _, _ => PyFloat (f_mul F64 (py_float a) (py_float b))
  end.

(** [a ** b] on [int]s with a non-negative exponent. *)
Definition py_pow (a b : Z) : Z := a ^ b.
End Python.

(** ** Tensors *)

(** A tensor is its dtype, its shape and its elements in row-major order;
    the elements of a floating tensor are floats, those of an integer tensor
    integers within the range of the dtype. *)
Inductive Tensor (F : Type) :=
| TFloat (k : FloatKind) (shape : list nat) (elems : list F)
| TInt (k : IntKind) (shape : list nat) (elems : list Z).
Arguments TFloat {F} k shape elems.
Arguments TInt {F} k shape elems.

Definition dtype {F} (t : Tensor F) : DType :=
  match t with
  | TFloat k _ _ => DFloat k
  | TInt k _ _ => DInt k
  end.

Definition shape {F} (t : Tensor F) : list nat :=
  match t with
  | TFloat _ s _ => s
  | TInt _ s _ => s
  end.

Module tf.
Section Ops.
Context {F : Type} `{Numeric F}.

(** A Python number used as an operand of a tensor of kind [k]:
    [ops.convert_to_tensor(p, dtype=k)]. *)
Definition convert_to_tensor (k : FloatKind) (p : PyNum F) : F :=
  match p with
  | PyInt z => f_of_Z k z
  | PyFloat x => f_cast k x
  end.

(** Broadcast of a Python scalar over a floating tensor.  The compressors
    reach these operators only under [dtype.is_floating]; an integer tensor
    is left as it is. *)
Definition broadcast (op : FloatKind -> F -> F -> F)
           (t : Tensor F) (p : PyNum F) : Tensor F :=
  match t with
  | TFloat k s l => TFloat k s (map (fun x => op k x (convert_to_tensor k p)) l)
  | TInt _ _ _ => t
  end.

(** [t + p], [t - p], [t * p], [t / p] *)
Definition add := broadcast f_add.
Definition sub := broadcast f_sub.
Definition mul := broadcast f_mul.
Definition div := broadcast f_div.

(** [tf.math.minimum(x, y)] is [x < y ? x : y] and [tf.math.maximum(x, y)]
    is [x > y ? x : y], elementwise. *)
Definition minimum (x y : F) : F := if f_lt x y then x else y.
Definition maximum (x y : F) : F := if f_lt y x then x else y.

(** [tf.math.round] *)
Definition round (t : Tensor F) : Tensor F :=
  match t with
  | TFloat k s l => TFloat k s (map (f_round k) l)
  | TInt _ _ _ => t
  end.

Definition clip (lo hi x : F) : F := maximum (minimum x hi) lo.

(** [tf.clip_by_value]: [maximum(minimum(t, clip_value_max), clip_value_min)] *)
Definition clip_by_value (t : Tensor F)
           (clip_value_min clip_value_max : PyNum F) : Tensor F :=
  match t with
  | TFloat k s l =>
      TFloat k s (map (clip (convert_to_tensor k clip_value_min)
                            (convert_to_tensor k clip_value_max)) l)
  | TInt _ _ _ => t
  end.

(** [tf.cast]: float to float re-rounds, float to integer truncates toward
    zero and wraps, integer to float converts, integer to integer wraps. *)
Definition cast (t : Tensor F) (d : DType) : Tensor F :=
  match t, d with
  | TFloat _ s l, DFloat k' => TFloat k' s (map (f_cast k') l)
  | TFloat _ s l, DInt i => TInt i s (map (fun x => int_wrap i (f_trunc x)) l)
  | TInt _ s l, DFloat k' => TFloat k' s (map (f_of_Z k') l)
  | TInt _ s l, DInt i => TInt i s (map (int_wrap i) l)
  end.
End Ops.
End tf.

(** ** The compressors *)

(** [class NoneCompressor]: default no-op compression. *)
Module NoneCompressor.
Section Defs.
Context {F : Type}.

(** Returns the tensor unmodified. *)
Definition compress (tensor : Tensor F) : Tensor F * PyCtx :=
  (tensor, PyNone).

(** Returns the tensor unmodified. *)
Definition decompress (tensor : Tensor F) (ctx : PyCtx) : Tensor F :=
  tensor.
End Defs.
End NoneCompressor.

(** Reading the attribute [is_floating] of a context needs the context to be
    a dtype: [None] has no such attribute. *)
Definition as_dtype (ctx : PyCtx) : PyResult DType :=
  match ctx with
  | PyNone => Raise AttributeError
  | PyDType d => Ok d
  end.

(** [class FP16Compressor]: compress all floating point gradients to 16-bit. *)
Module FP16Compressor.
Section Defs.
Context {F : Type} `{Numeric F}.

(** Downcasts the tensor to 16-bit. *)
Definition compress (tensor : Tensor F) : Tensor F * PyCtx :=
  let tensor_compressed := tensor in
  let tensor_compressed :=
    if is_floating (dtype tensor)
    then tf.cast tensor float16
    else tensor_compressed in
  (tensor_compressed, PyDType (dtype tensor)).

(** Upcasts the tensor to the initialization dtype. *)
Definition decompress (tensor : Tensor F) (ctx : PyCtx) : PyResult (Tensor F) :=
  let tensor_decompressed := tensor in
  let dtype_ := ctx in
  dtype_ <- as_dtype dtype_ ;;
  let tensor_decompressed :=
    if is_floating dtype_
    then tf.cast tensor dtype_
    else tensor_decompressed in
  Ok tensor_decompressed.
End Defs.
End FP16Compressor.

(** [class INT8Compressor]: compress all floating point gradients to 8-bit. *)
Module INT8Compressor.
Section Defs.
Context {F : Type} `{Numeric F}.

(** [(2**(8-1)/horovod_size - 1)] *)
Definition valid_max (horovod_size : Z) : PyResult (PyNum F) :=
  q <- py_truediv (py_pow 2 (8 - 1)) horovod_size ;;
  Ok (py_sub q (PyInt 1)).

(** [(2**(8-1)/horovod_size - 1) * -1] *)
Definition valid_min (horovod_size : Z) : PyResult (PyNum F) :=
  q <- py_truediv (py_pow 2 (8 - 1)) horovod_size ;;
  Ok (py_mul (py_sub q (PyInt 1)) (PyInt (-1))).

(** Downcasts the tensor to 8-bit.  [horovod_size] is a Python [int];
    [global_max] and [global_min] are Python floats, so their difference is
    taken in binary64 before it meets the tensor. *)
Definition compress (tensor : Tensor F) (horovod_size : Z)
           (global_max global_min : F) : PyResult (Tensor F * PyCtx) :=
  let tensor_compressed := tensor in
  if is_floating (dtype tensor) then
    valid_max <- valid_max horovod_size ;;
    valid_min <- valid_min horovod_size ;;
    let tensor_compressed :=
      tf.div (tf.sub tensor_compressed (PyFloat global_min))
             (py_sub (PyFloat global_max) (PyFloat global_min)) in
    let tensor_compressed :=
      tf.add (tf.mul tensor_compressed (py_sub valid_max valid_min)) valid_min in
    let tensor_compressed := tf.round tensor_compressed in
    let tensor_compressed :=
      tf.clip_by_value tensor_compressed valid_min valid_max in
    let tensor_compressed := tf.cast tensor_compressed int8 in
    Ok (tensor_compressed, PyDType (dtype tensor))
  else
    Ok (tensor_compressed, PyDType (dtype tensor)).

(** [(2**(8-1) - 1)] and [(2**(8-1) - 1) * -1] *)
Definition valid_max_full : PyNum F :=
  py_sub (PyInt (py_pow 2 (8 - 1))) (PyInt 1).
Definition valid_min_full : PyNum F :=
  py_mul (py_sub (PyInt (py_pow 2 (8 - 1))) (PyInt 1)) (PyInt (-1)).

(** Upcasts the tensor to the initialization dtype. *)
Definition decompress (tensor : Tensor F) (ctx : PyCtx)
           (global_max global_min : F) : PyResult (Tensor F) :=
  let tensor_decompressed := tensor in
  let dtype_ := ctx in
  dtype_ <- as_dtype dtype_ ;;
  if is_floating dtype_ then
    let valid_max := valid_max_full in
    let valid_min := valid_min_full in
    let tensor_decompressed :=
      tf.cast tensor_decompressed dtype_ in
    let tensor_decompressed :=
      tf.div (tf.sub tensor_decompressed valid_min) (py_sub valid_max valid_min) in
    let tensor_decompressed :=
      tf.add (tf.mul tensor_decompressed
                     (py_sub (PyFloat global_max) (PyFloat global_min)))
             (PyFloat global_min) in
    Ok tensor_decompressed
  else
    Ok tensor_decompressed.
End Defs.
End INT8Compressor.

(** [class Compression]: the optional gradient compression algorithms used
    during allreduce. *)
Module Compression.
Module none := NoneCompressor.
Module fp16 := FP16Compressor.
Module int8 := INT8Compressor.
End Compression.

(** ** The IEEE-754 instance *)

Module IEEE.

(** Precision (bits of the significand, the implicit one included) and
    exponent of the infinities, per format. *)
Definition prec (k : FloatKind) : Z :=
  match k with
  | F16 => 11
  | BF16 => 8
  | F32 => 24
  | F64 => 53
  end.

Definition emax (k : FloatKind) : Z :=
  match k with
  | F16 => 16
  | BF16 => 128
  | F32 => 128
  | F64 => 1024
  end.

(** An integer as a float of format [k], rounded to nearest even. *)
Definition of_Z (k : FloatKind) (z : Z) : spec_float :=
  binary_normalize (prec k) (emax k) z 0 false.

(** A float re-rounded to format [k]. *)
Definition cast (k : FloatKind) (x : spec_float) : spec_float :=
  match x with
  | S754_finite s m e => binary_round (prec k) (emax k) s m e
  | _ => x
  end.

(** Round-half-to-even of [m / 2^p] on naturals. *)
Definition rint_shift (m : Z) (p : positive) : Z :=
  let d := 2 ^ Zpos p in
  let q := m / d in
  let r := m mod d in
  match 2 * r ?= d with
  | Lt => q
  | Gt => q + 1
  | Eq => if Z.even q then q else q + 1
  end.

(** [tf.math.round]: to the nearest integer, halves to the even one; the
    sign is kept, also on a zero result. *)
Definition round (k : FloatKind) (x : spec_float) : spec_float :=
  match x with
  | S754_finite s m (Zneg p) =>
      binary_normalize (prec k) (emax k)
                       (cond_Zopp s (rint_shift (Zpos m) p)) 0 s
  | _ => x
  end.

(** Conversion to an integer: the fraction is dropped (toward zero); NaN
    and the infinities, for which the conversion is not defined by the
    language, give 0 as the x86 conversion instructions do after the
    narrowing to 8 bits. *)
Definition trunc (x : spec_float) : Z :=
  match x with
  | S754_finite s m (Zneg p) => cond_Zopp s (Zpos m / 2 ^ Zpos p)
  | S754_finite s m e => cond_Zopp s (Zpos m * 2 ^ e)
  | _ => 0
  end.

#[global] Instance numeric : Numeric spec_float := {
  f_of_Z := of_Z;
  f_cast := cast;
  f_add k := SFadd (prec k) (emax k);
  f_sub k := SFsub (prec k) (emax k);
  f_mul k := SFmul (prec k) (emax k);
  f_div k := SFdiv (prec k) (emax k);
  f_round := round;
  f_lt := SFltb;
  f_trunc := trunc
}.

(** The rational a finite float denotes. *)
Definition to_Q (x : spec_float) : option Q :=
  match x with
  | S754_zero _ => Some 0%Q
  | S754_finite s m (Zneg p) => Some (Qmake (cond_Zopp s (Zpos m)) (2 ^ p))
  | S754_finite s m e => Some (inject_Z (cond_Zopp s (Zpos m * 2 ^ e)))
  | _ => None
  end.

(** Float literals: [m * 2^e] rounded to format [k]. *)
Definition lit (k : FloatKind) (m e : Z) : spec_float :=
  binary_normalize (prec k) (emax k) m e false.

End IEEE.

(** ** The exact instance *)

Module Exact.

Definition lt (x y : Q) : bool := negb (Qle_bool y x).

(** To the nearest integer, halves to the even one. *)
Definition rint (x : Q) : Z :=
  let f := Qfloor x in
  match (x - inject_Z f ?= 1 # 2)%Q with
  | Lt => f
  | Gt => f + 1
  | Eq => if Z.even f then f else f + 1
  end.

(** Toward zero. *)
Definition trunc (x : Q) : Z :=
  if Qle_bool 0 x then Qfloor x else Qceiling x.

#[global] Instance numeric : Numeric Q := {
  f_of_Z _ z := inject_Z z;
  f_cast _ x := x;
  f_add _ := Qplus;
  f_sub _ := Qminus;
  f_mul _ := Qmult;
  f_div _ := Qdiv;
  f_round _ x := inject_Z (rint x);
  f_lt := lt;
  f_trunc := trunc
}.

End Exact.

(** ** The aggregation the compressed tensors go through *)

Module Allreduce.
Section Defs.
Context {F : Type} `{Numeric F}.

Fixpoint zip_with {A} (f : A -> A -> A) (l l' : list A) : list A :=
  match l, l' with
  | x :: r, y :: r' => f x y :: zip_with f r r'
  | _, _ => []
  end.

(** Elementwise sum of two tensors of one dtype and shape; integer sums
    wrap around in the dtype. *)
Definition add (a b : Tensor F) : Tensor F :=
  match a, b with
  | TInt k s l, TInt _ _ l' => TInt k s (zip_with (fun x y => int_wrap k (x + y)) l l')
  | TFloat k s l, TFloat _ _ l' => TFloat k s (zip_with (f_add k) l l')
  | _, _ => a
  end.

(** The elementwise sum of the tensors the peers contribute. *)
Definition sum (first : Tensor F) (rest : list (Tensor F)) : Tensor F :=
  fold_left add rest first.
End Defs.
End Allreduce.

(** ** What the specification says the INT8 codec computes *)

Module INT8Spec.
Section Defs.
Context {F : Type} `{Numeric F}.

(** [valid_max = 2^7/horovod_size - 1], a Python float. *)
Definition valid_max (horovod_size : Z) : F :=
  f_sub F64 (f_div F64 (f_of_Z F64 (2 ^ 7)) (f_of_Z F64 horovod_size))
        (f_of_Z F64 1).

(** [valid_min = -valid_max], the negation being the product by [-1]. *)
Definition valid_min (horovod_size : Z) : F :=
  f_mul F64 (valid_max horovod_size) (f_of_Z F64 (-1)).

(** The integer boundary of the usable range: [valid_max] without its
    fraction. *)
Definition boundary (horovod_size : Z) : Z := 2 ^ 7 / horovod_size - 1.

(** One element through compression, in a tensor of kind [k]: normalise,
    map affinely into the usable range, round, clip, cast to int8. *)
Definition quantize (k : FloatKind) (vmax vmin gmax gmin : F) (x : F) : Z :=
  let lo := f_cast k vmin in
  let hi := f_cast k vmax in
  let norm := f_div k (f_sub k x (f_cast k gmin))
                    (f_cast k (f_sub F64 gmax gmin)) in
  let scaled := f_add k (f_mul k norm (f_cast k (f_sub F64 vmax vmin))) lo in
  let rounded := f_round k scaled in
  let clipped := tf.maximum (tf.minimum rounded hi) lo in
  int_wrap I8 (f_trunc clipped).

(** One element through decompression into kind [k], from the full range
    [-127 .. 127]. *)
Definition dequantize (k : FloatKind) (gmax gmin : F) (x : F) : F :=
  let norm := f_div k (f_sub k x (f_of_Z k (-127)))
                    (f_of_Z k (127 - (-127))) in
  f_add k (f_mul k norm (f_cast k (f_sub F64 gmax gmin))) (f_cast k gmin).
End Defs.
End INT8Spec.

Module FP16Spec.
Section Defs.
Context {F : Type} `{Numeric F}.

(** Cast to the 16-bit floating representation when the dtype is floating,
    unchanged otherwise; paired with the original dtype. *)
Definition compress (t : Tensor F) : Tensor F * PyCtx :=
  match t with
  | TFloat _ s l => (TFloat F16 s (map (f_cast F16) l), PyDType (dtype t))
  | TInt _ _ _ => (t, PyDType (dtype t))
  end.

(** Cast back to the recorded dtype when it is floating, unchanged
    otherwise. *)
Definition decompress (t : Tensor F) (d : DType) : Tensor F :=
  if is_floating d then tf.cast t d else t.
End Defs.
End FP16Spec.

Module INT8SpecTensor.
Section Defs.
Context {F : Type} `{Numeric F}.

(** The elements of [t] as floats of kind [k]. *)
Definition elems_as (k : FloatKind) (t : Tensor F) : list F :=
  match t with
  | TFloat _ _ l => map (f_cast k) l
  | TInt _ _ l => map (f_of_Z k) l
  end.

(** Compression of a whole tensor: every element of a floating tensor is
    quantized, the result is an int8 tensor of the same shape, and the
    context is the original dtype; other tensors pass through. *)
Definition compress (t : Tensor F) (horovod_size : Z) (gmax gmin : F)
  : Tensor F * PyCtx :=
  match t with
  | TFloat k s l =>
      (TInt I8 s (map (INT8Spec.quantize k (INT8Spec.valid_max horovod_size)
                                         (INT8Spec.valid_min horovod_size)
                                         gmax gmin) l),
       PyDType (dtype t))
  | TInt _ _ _ => (t, PyDType (dtype t))
  end.

(** Decompression of a whole tensor under the recorded dtype [d]. *)
Definition decompress (t : Tensor F) (d : DType) (gmax gmin : F) : Tensor F :=
  match d with
  | DFloat k => TFloat k (shape t) (map (INT8Spec.dequantize k gmax gmin) (elems_as k t))
  | DInt _ => t
  end.
End Defs.
End INT8SpecTensor.

(** ** Scenarios *)

Module Scenario.
Section Defs.
Context {F : Type} `{Numeric F}.

(** Compress a tensor and decompress the payload at once, with the same
    range. *)
Definition roundtrip (t : Tensor F) (horovod_size : Z) (gmax gmin : F)
  : PyResult (Tensor F) :=
  p <- INT8Compressor.compress t horovod_size gmax gmin ;;
  INT8Compressor.decompress (fst p) (snd p) gmax gmin.

Fixpoint compress_all (ts : list (Tensor F)) (horovod_size : Z) (gmax gmin : F)
  : PyResult (list (Tensor F * PyCtx)) :=
  match ts with
  | [] => Ok []
  | t :: r =>
      p <- INT8Compressor.compress t horovod_size gmax gmin ;;
      ps <- compress_all r horovod_size gmax gmin ;;
      Ok (p :: ps)
  end.

(** Every peer compresses its own tensor, the payloads are summed
    elementwise, and the sum is decompressed under the first peer's
    context. *)
Definition sum_then_decompress (first : Tensor F) (rest : list (Tensor F))
           (horovod_size : Z) (gmax gmin : F) : PyResult (Tensor F) :=
  p <- INT8Compressor.compress first horovod_size gmax gmin ;;
  ps <- compress_all rest horovod_size gmax gmin ;;
  INT8Compressor.decompress (Allreduce.sum (fst p) (map fst ps)) (snd p)
                            gmax gmin.
End Defs.

(** A tensor of kind [k] holding the single value [m * 2^e]. *)
Definition holding (k : FloatKind) (m e : Z) : Tensor spec_float :=
  TFloat k [] [IEEE.lit k m e].

(** The rational the single element of a floating tensor denotes. *)
Definition value (r : PyResult (Tensor spec_float)) : option Q :=
  match r with
  | Ok (TFloat _ _ [x]) => IEEE.to_Q x
  | _ => None
  end.

(** [|q - target| <= bound] for the value of a result. *)
Definition within (r : option Q) (target bound : Q) : Prop :=
  match r with
  | Some q => (Qabs (q - target) <= bound)%Q
  | None => False
  end.

(** The quantization step of a compression with [horovod_size] peers. *)
Definition step (gmax gmin : Q) (valid_max valid_min : Q) : Q :=
  ((gmax - gmin) / (valid_max - valid_min))%Q.
End Scenario.

(** ** Observations on tensors *)

(** The number of elements of a tensor. *)
Definition numel {F} (t : Tensor F) : nat :=
  match t with
  | TFloat _ _ l => length l
  | TInt _ _ l => length l
  end.

(** The sum of the integers the peers contribute at one position, before any
    wrap-around. *)
Definition total (zs : list Z) : Z := fold_right Z.add 0 zs.

(** A finite float of more than 11 significant bits whose magnitude is at
    least [2^16], beyond what half precision holds. *)
Definition beyond_half (x : spec_float) : bool :=
  match x with
  | S754_finite _ m e =>
      (11 <? Zpos (digits2_pos m)) && (17 <=? e + Zpos (digits2_pos m))
  | _ => false
  end.

(** The infinity of the sign of a finite float. *)
Definition overflowed (x : spec_float) : spec_float :=
  match x with
  | S754_finite s _ _ => S754_infinity s
  | _ => x
  end.

(** ** The steps of INT8 compression *)

Module INT8Steps.
Section Defs.
Context {F : Type} `{Numeric F}.

(** The element after the affine map of lines 85-86, before rounding. *)
Definition scaled (k : FloatKind) (vmax vmin gmax gmin : F) (x : F) : F :=
  f_add k (f_mul k (f_div k (f_sub k x (f_cast k gmin))
                          (f_cast k (f_sub F64 gmax gmin)))
                   (f_cast k (f_sub F64 vmax vmin)))
        (f_cast k vmin).

(** The element after [tf.math.round], line 87. *)
Definition rounded (k : FloatKind) (vmax vmin gmax gmin : F) (x : F) : F :=
  f_round k (scaled k vmax vmin gmax gmin x).

End Defs.
End INT8Steps.

(** ** The usable range under IEEE arithmetic, by evaluation *)

Module Range.

(** [valid_max] and [valid_min] as the tensor of kind [k] sees them. *)
Definition upper (k : FloatKind) (n : Z) : spec_float :=
  IEEE.cast k (INT8Spec.valid_max n).
Definition lower (k : FloatKind) (n : Z) : spec_float :=
  IEEE.cast k (INT8Spec.valid_min n).

(** A zero, or a finite float of sign [s] whose exponent lies below that of
    every integer from 128 on in the format of kind [k]. *)
Definition small (k : FloatKind) (s : bool) (x : spec_float) : bool :=
  match x with
  | S754_zero _ => true
  | S754_finite s' _ e => Bool.eqb s s' && (e <? 8 - IEEE.prec k)
  | _ => false
  end.

Definition signs : list bool := [false; true].

(** The integers the table is run on. *)
Definition upto (n : nat) : list Z := map Z.of_nat (seq 1 n).

(** What is left of a rounded element [r] between the ends [hi] and [lo]
    after [tf.clip_by_value] and the cast to int8, lines 88-89. *)
Definition payload_between (hi lo r : spec_float) : Z :=
  int_wrap I8 (IEEE.trunc (tf.maximum (tf.minimum r hi) lo)).

(** The integer [z] with sign [s] as [tf.math.round] returns it in kind
    [k]. *)
Definition rounded_int (k : FloatKind) (s : bool) (z : Z) : spec_float :=
  binary_normalize (IEEE.prec k) (IEEE.emax k) (cond_Zopp s z) 0 s.

(** What one row of the table checks for [horovod_size = n] in kind [k]: the
    shape of the two ends of the range, where the ends themselves go, and
    where every integer below 128 goes. *)
Definition row (k : FloatKind) (n : Z) : bool :=
  let hi := upper k n in
  let lo := lower k n in
  let b := INT8Spec.boundary n in
  small k false hi && small k true lo
  && (int_wrap I8 (IEEE.trunc (if SFltb lo hi then hi else lo)) =? b)
  && (int_wrap I8 (IEEE.trunc lo) =? - b)
  && (0 <=? b) && (b <=? 127)
  && forallb (fun z =>
                forallb (fun s =>
                           let p := payload_between hi lo (rounded_int k s z) in
                           (- b <=? p) && (p <=? b)) signs)
             (upto 127).

(** What one row checks beyond 128 peers: the range is inverted, with a
    negative upper end and a positive lower end that truncates to 0. *)
Definition crowded_row (k : FloatKind) (n : Z) : bool :=
  match upper k n, lower k n with
  | S754_finite true _ _, S754_finite false _ _ =>
      int_wrap I8 (IEEE.trunc (lower k n)) =? 0
  | _, _ => false
  end.

(** The payload [z] is what the clip makes of the rounded value [r] for
    [horovod_size = n] in kind [k]: it lies between the two boundaries; it is
    the upper boundary when [r] is not below the upper end of the range, and
    the lower boundary when [r] is below the upper end but not above the
    lower end. *)
Definition clipped_to (k : FloatKind) (n : Z) (r : spec_float) (z : Z) : Prop :=
  - INT8Spec.boundary n <= z <= INT8Spec.boundary n /\
  (if SFltb r (upper k n)
   then (if SFltb (lower k n) r then True else z = - INT8Spec.boundary n)
   else z = INT8Spec.boundary n).


End Range.

(** * Properties *)

(** Closed goals are settled by running the embedding. *)
Ltac by_evaluation :=
  vm_compute; first [reflexivity | let E := fresh in intro E; discriminate E].

(** ** Shared lemmas *)

Section Generic.
Context {F : Type} `{Numeric F}.

Lemma non_floating_is_int (t : Tensor F) :
  is_floating (dtype t) = false -> exists k s l, t = TInt k s l.
Proof.
  destruct t as [k s l | k s l]; simpl; intros E.
  - discriminate E.
  - now exists k, s, l.
Qed.

Lemma floating_is_float (t : Tensor F) :
  is_floating (dtype t) = true -> exists k s l, t = TFloat k s l.
Proof.
  destruct t as [k s l | k s l]; simpl; intros E.
  - now exists k, s, l.
  - discriminate E.
Qed.

Lemma valid_max_ok (n : Z) :
  n <> 0 ->
  INT8Compressor.valid_max n = Ok (PyFloat (INT8Spec.valid_max n)).
Proof.
  intros Hn. unfold INT8Compressor.valid_max, py_truediv, py_pow.
  destruct (Z.eqb_spec n 0) as [E | _]; [contradiction | reflexivity].
Qed.

Lemma valid_min_ok (n : Z) :
  n <> 0 ->
  INT8Compressor.valid_min n = Ok (PyFloat (INT8Spec.valid_min n)).
Proof.
  intros Hn. unfold INT8Compressor.valid_min, py_truediv, py_pow.
  destruct (Z.eqb_spec n 0) as [E | _]; [contradiction | reflexivity].
Qed.

(** The five tensor operations of the floating branch of
    [INT8Compressor.compress], fused into one pass over the elements. *)
Lemma compress_elementwise (t : Tensor F) (n : Z) (gmax gmin : F) :
  n <> 0 ->
  INT8Compressor.compress t n gmax gmin
  = Ok (INT8SpecTensor.compress t n gmax gmin).
Proof.
  intros Hn. destruct t as [k s l | k s l]; [| reflexivity].
  unfold INT8Compressor.compress. cbn [dtype is_floating].
  rewrite (valid_max_ok n Hn), (valid_min_ok n Hn). cbn [bind].
  unfold tf.div, tf.sub, tf.add, tf.mul, tf.broadcast, tf.round,
    tf.clip_by_value, tf.cast, int8.
  cbn [INT8SpecTensor.compress dtype]. rewrite !map_map. reflexivity.
Qed.

(** The three tensor operations of the floating branch of
    [INT8Compressor.decompress], fused likewise. *)
Lemma decompress_elementwise (t : Tensor F) (d : DType) (gmax gmin : F) :
  INT8Compressor.decompress t (PyDType d) gmax gmin
  = Ok (INT8SpecTensor.decompress t d gmax gmin).
Proof.
  destruct d as [k | i]; [| reflexivity].
  unfold INT8Compressor.decompress. cbn [as_dtype bind is_floating].
  destruct t as [k0 s l | k0 s l];
    cbn [tf.cast]; unfold tf.div, tf.sub, tf.add, tf.mul, tf.broadcast;
    cbn [INT8SpecTensor.decompress INT8SpecTensor.elems_as shape];
    rewrite !map_map; reflexivity.
Qed.
End Generic.

(** ** NoneCompressor *)

(** C8.  For every tensor, of any dtype and in any numeric runtime,
    [NoneCompressor.compress] returns the tensor itself paired with [None],
    and [NoneCompressor.decompress] applied to that pair returns the very same
    tensor: the round trip is the identity. *)
Theorem none_roundtrip_identity :
  forall (F : Type) (t : Tensor F),
    NoneCompressor.compress t = (t, PyNone) /\
    NoneCompressor.decompress (fst (NoneCompressor.compress t))
                              (snd (NoneCompressor.compress t)) = t.
Proof.
  intros F t. split; reflexivity.
Qed.

(** ** FP16Compressor *)

(** C7.  [FP16Compressor.compress] returns the tensor cast to float16 when its
    dtype is floating and the tensor itself otherwise, paired with the
    original dtype; [FP16Compressor.decompress] under a dtype [d] returns the
    tensor cast to [d] when [d] is floating and the tensor itself otherwise;
    hence for a floating tensor the dtype after the round trip is the dtype
    before it. *)
Theorem fp16_compress_decompress :
  forall (F : Type) (N : Numeric F) (t u : Tensor F) (d : DType),
    FP16Compressor.compress t
    = ((if is_floating (dtype t) then tf.cast t float16 else t),
       PyDType (dtype t)) /\
    dtype (fst (FP16Compressor.compress t))
    = (if is_floating (dtype t) then float16 else dtype t) /\
    FP16Compressor.decompress u (PyDType d)
    = Ok (if is_floating d then tf.cast u d else u) /\
    exists r,
      FP16Compressor.decompress (fst (FP16Compressor.compress t))
                                (snd (FP16Compressor.compress t)) = Ok r /\
      dtype r = dtype t /\ shape r = shape t.
Proof.
  intros F N t u d. split; [reflexivity |]. split; [| split; [reflexivity |]].
  - destruct t; reflexivity.
  - destruct t as [k s l | k s l]; eexists; repeat split.
Qed.

(** ** INT8Compressor *)

(** Under IEEE arithmetic the product by [-1] that yields [valid_min] is the
    negation of [valid_max], for every [horovod_size] that leaves a
    non-negative range. *)
Lemma ieee_valid_min_is_negation :
  Forall (fun n => INT8Spec.valid_min (F := spec_float) n
                   = SFopp (INT8Spec.valid_max n))
         (map Z.of_nat (seq 1 128)).
Proof.
  apply Forall_forall. intros n Hn. cbv [map seq] in Hn.
  repeat (destruct Hn as [<- | Hn]; [vm_compute; reflexivity |]).
  destruct Hn.
Qed.

(** C2.  For every floating tensor, every [horovod_size >= 1] and every
    [global_max > global_min], in any numeric runtime,
    [INT8Compressor.compress] computes [valid_max = 2^7/horovod_size - 1] and
    [valid_min = -valid_max] (as the product of [valid_max] by [-1]) and
    returns the int8 tensor, of the same shape, whose elements are
    [round((x - global_min)/(global_max - global_min) * (valid_max - valid_min)
    + valid_min)] clipped to [valid_min .. valid_max] and cast to signed 8-bit,
    paired with the original dtype.  The product by [-1] is the negation: in
    exact arithmetic always, under IEEE arithmetic for [horovod_size] from 1
    to 128. *)
Theorem int8_compress_formula :
  forall (F : Type) (N : Numeric F) (k : FloatKind) (s : list nat) (l : list F)
         (n : Z) (gmax gmin : F),
    1 <= n ->
    f_lt gmin gmax = true ->
    (INT8Compressor.valid_max n = Ok (PyFloat (INT8Spec.valid_max n)) /\
     INT8Compressor.valid_min n = Ok (PyFloat (INT8Spec.valid_min n)) /\
     INT8Compressor.compress (TFloat k s l) n gmax gmin
     = Ok (TInt I8 s (map (INT8Spec.quantize k (INT8Spec.valid_max n)
                                             (INT8Spec.valid_min n) gmax gmin) l),
           PyDType (DFloat k))) /\
    (INT8Spec.valid_min (F := Q) n == - INT8Spec.valid_max n)%Q /\
    Forall (fun m => INT8Spec.valid_min (F := spec_float) m
                     = SFopp (INT8Spec.valid_max m))
           (map Z.of_nat (seq 1 128)).
Proof.
  intros F N k s l n gmax gmin Hn _.
  assert (Hz : n <> 0) by lia.
  split; [repeat split | split].
  - now apply valid_max_ok.
  - now apply valid_min_ok.
  - now rewrite compress_elementwise.
  - unfold INT8Spec.valid_min. cbn [f_mul f_of_Z Exact.numeric].
    change (inject_Z (-1)) with (- (1))%Q. ring.
  - exact ieee_valid_min_is_negation.
Qed.

Lemma int8_compress_formula_witness :
  INT8Compressor.compress (TFloat F32 [2%nat] [IEEE.lit F32 1 (-1); IEEE.lit F32 5 0])
                          1 (IEEE.lit F64 1 0) (IEEE.lit F64 (-1) 0)
  = Ok (TInt I8 [2%nat]
             (map (INT8Spec.quantize F32 (INT8Spec.valid_max 1)
                                     (INT8Spec.valid_min 1)
                                     (IEEE.lit F64 1 0) (IEEE.lit F64 (-1) 0))
                  [IEEE.lit F32 1 (-1); IEEE.lit F32 5 0]),
        PyDType float32).
Proof.
  apply (int8_compress_formula spec_float IEEE.numeric F32 [2%nat]
           [IEEE.lit F32 1 (-1); IEEE.lit F32 5 0] 1
           (IEEE.lit F64 1 0) (IEEE.lit F64 (-1) 0)).
  - lia.
  - reflexivity.
Defined.

(** C3.  For every tensor and every recorded dtype [d], in any numeric
    runtime: when [d] is floating, [INT8Compressor.decompress] takes the full
    range [valid_max = 127], [valid_min = -127], casts the tensor to [d] and
    returns [((x - valid_min)/(valid_max - valid_min)) * (global_max -
    global_min) + global_min] elementwise; when [d] is not floating the tensor
    comes back unchanged. *)
Theorem int8_decompress_formula :
  forall (F : Type) (N : Numeric F) (t : Tensor F) (d : DType) (gmax gmin : F),
    INT8Compressor.valid_max_full (F := F) = PyInt 127 /\
    INT8Compressor.valid_min_full (F := F) = PyInt (-127) /\
    INT8Compressor.decompress t (PyDType d) gmax gmin
    = Ok (match d with
          | DFloat k =>
              TFloat k (shape t)
                     (map (INT8Spec.dequantize k gmax gmin)
                          (INT8SpecTensor.elems_as k t))
          | DInt _ => t
          end).
Proof.
  intros F N t d gmax gmin. repeat split.
  now rewrite decompress_elementwise.
Qed.

(** ** All strategies *)

(** C4, as stated, fails for [NoneCompressor]: on an int32 tensor its
    [compress] pairs the tensor with [None], not with the tensor's dtype. *)
Lemma none_context_is_not_the_dtype :
  let t := TInt (F := Q) I32 [2%nat] [7; -3] in
  is_floating (dtype t) = false /\
  NoneCompressor.compress t <> (t, PyDType (dtype t)).
Proof.
  split; [reflexivity | discriminate].
Qed.

(** C4, amended.  For every tensor [t] whose dtype is not floating, in any
    numeric runtime: [FP16Compressor.compress] and [INT8Compressor.compress]
    return [t] itself paired with its dtype, [NoneCompressor.compress] returns
    [t] itself paired with [None], and the [decompress] of each of the three
    strategies, given [t] and its dtype, returns [t] itself. *)
Theorem non_floating_pass_through :
  forall (F : Type) (N : Numeric F) (t : Tensor F) (n : Z) (gmax gmin : F),
    is_floating (dtype t) = false ->
    NoneCompressor.compress t = (t, PyNone) /\
    FP16Compressor.compress t = (t, PyDType (dtype t)) /\
    INT8Compressor.compress t n gmax gmin = Ok (t, PyDType (dtype t)) /\
    NoneCompressor.decompress t (PyDType (dtype t)) = t /\
    FP16Compressor.decompress t (PyDType (dtype t)) = Ok t /\
    INT8Compressor.decompress t (PyDType (dtype t)) gmax gmin = Ok t.
Proof.
  intros F N t n gmax gmin Hnf.
  destruct (non_floating_is_int t Hnf) as (k & s & l & ->).
  repeat split.
Qed.

Lemma non_floating_pass_through_witness :
  let t := TInt (F := spec_float) I32 [2%nat] [7; -3] in
  NoneCompressor.compress t = (t, PyNone) /\
  FP16Compressor.compress t = (t, PyDType int32) /\
  INT8Compressor.compress t 4 (IEEE.lit F64 1 0) (IEEE.lit F64 (-1) 0)
  = Ok (t, PyDType int32) /\
  NoneCompressor.decompress t (PyDType int32) = t /\
  FP16Compressor.decompress t (PyDType int32) = Ok t /\
  INT8Compressor.decompress t (PyDType int32) (IEEE.lit F64 1 0)
                            (IEEE.lit F64 (-1) 0) = Ok t.
Proof.
  exact (non_floating_pass_through spec_float IEEE.numeric
           (TInt I32 [2%nat] [7; -3]) 4 (IEEE.lit F64 1 0) (IEEE.lit F64 (-1) 0)
           eq_refl).
Defined.

(** ** INT8 scenarios on concrete values *)

(** C5.  With [horovod_size = 1], [global_min = -1.0], [global_max = 1.0],
    compressing a tensor that holds 0.5 and decompressing the payload at once
    gives a value at most one quantization step away from 0.5, where
    [step = (global_max - global_min) / 254], about 0.00787.  This holds under
    IEEE arithmetic for a tensor of each floating dtype (float16, bfloat16,
    float32, float64); in exact arithmetic the result is 128/254. *)
Theorem int8_roundtrip_half_within_step :
  forall k : FloatKind,
    INT8Compressor.valid_max 1 = Ok (PyFloat (IEEE.lit F64 127 0)) /\
    INT8Compressor.valid_min 1 = Ok (PyFloat (IEEE.lit F64 (-127) 0)) /\
    Scenario.within
      (Scenario.value
         (Scenario.roundtrip (Scenario.holding k 1 (-1)) 1
                             (IEEE.lit F64 1 0) (IEEE.lit F64 (-1) 0)))
      (1 # 2) (Scenario.step 1 (-1) 127 (-127)) /\
    (Scenario.step 1 (-1) 127 (-127) == 2 / 254)%Q /\
    (787 # 100000 < Scenario.step 1 (-1) 127 (-127) < 788 # 100000)%Q /\
    Scenario.roundtrip (TFloat k [] [1 # 2]%Q) 1 1%Q (-1)%Q
    = Ok (TFloat k [] [128 # 254]%Q).
Proof.
  intros k. split; [reflexivity |]. split; [reflexivity |].
  split; [destruct k; by_evaluation |].
  split; [reflexivity |]. split; [split; reflexivity |].
  destruct k; reflexivity.
Qed.

(** C1, as stated, fails: with [horovod_size = 4], [global_min = 0.0],
    [global_max = 4.0] and four float32 peers holding 1.0, the decompressed sum
    of the four payloads is not within [4 * step / 2] of 4.0, where
    [step = (4.0 - 0.0) / (31 - (-31))]. *)
Lemma sum_then_decompress_misses_the_sum :
  let peer := Scenario.holding F32 1 0 in
  ~ Scenario.within
      (Scenario.value
         (Scenario.sum_then_decompress peer [peer; peer; peer] 4
                                       (IEEE.lit F64 4 0) (IEEE.lit F64 0 0)))
      4 (4 * (Scenario.step 4 0 31 (-31) / 2)).
Proof.
  vm_compute. intros E. apply E. reflexivity.
Qed.

(** C1, amended.  With [horovod_size = 4], [global_min = 0.0],
    [global_max = 4.0], the usable range is [-31 .. 31]; each of four peers
    holding 1.0 compresses it to -16; the elementwise sum of the four payloads
    is -64; and decompressing that sum over the full range gives a value
    within [4 * step / 2] of 1.0 -- the value every peer holds, not the sum
    4.0 -- where [step = (global_max - global_min) / (31 - (-31))].  This
    holds under IEEE arithmetic for each floating dtype; in exact arithmetic
    the result is 252/254. *)
Theorem sum_then_decompress_near_peer_value :
  forall k : FloatKind,
    let peer := Scenario.holding k 1 0 in
    INT8Compressor.valid_max 4 = Ok (PyFloat (IEEE.lit F64 31 0)) /\
    INT8Compressor.valid_min 4 = Ok (PyFloat (IEEE.lit F64 (-31) 0)) /\
    INT8Compressor.compress peer 4 (IEEE.lit F64 4 0) (IEEE.lit F64 0 0)
    = Ok (TInt I8 [] [-16], PyDType (DFloat k)) /\
    Allreduce.sum (F := spec_float) (TInt I8 [] [-16])
                  [TInt I8 [] [-16]; TInt I8 [] [-16]; TInt I8 [] [-16]]
    = TInt I8 [] [-64] /\
    Scenario.within
      (Scenario.value
         (Scenario.sum_then_decompress peer [peer; peer; peer] 4
                                       (IEEE.lit F64 4 0) (IEEE.lit F64 0 0)))
      1 (4 * (Scenario.step 4 0 31 (-31) / 2)) /\
    (let exact := TFloat k [] [1%Q] in
     Scenario.sum_then_decompress exact [exact; exact; exact] 4 4%Q 0%Q
     = Ok (TFloat k [] [252 # 254]%Q)).
Proof.
  intros k peer. subst peer. split; [reflexivity |]. split; [reflexivity |].
  split; [destruct k; reflexivity |]. split; [reflexivity |].
  split; [destruct k; by_evaluation |].
  destruct k; reflexivity.
Qed.

(** ** Facts of the exact instance *)

Module ExactFacts.
Local Open Scope Q_scope.

Lemma rint_eq (x y : Q) : x == y -> Exact.rint x = Exact.rint y.
Proof.
  intros E. unfold Exact.rint. rewrite (Qfloor_comp x y E).
  assert (E' : x - inject_Z (Qfloor y) == y - inject_Z (Qfloor y)) by lra.
  now rewrite (Qcompare_comp _ _ E' (1 # 2) (1 # 2) (Qeq_refl _)).
Qed.

End ExactFacts.

(** ** One peer in 128 *)

Lemma ieee_valid_range_128 :
  INT8Spec.valid_max (F := spec_float) 128 = S754_zero false /\
  INT8Spec.valid_min (F := spec_float) 128 = S754_zero true.
Proof.
  split; vm_compute; reflexivity.
Qed.

(** Under IEEE arithmetic an empty usable range sends every float -- finite
    or not -- to 0: the product with the width [+0] is a zero or NaN, the sum
    with [-0] likewise, and the clip brings either into the range. *)
Lemma ieee_quantize_empty_range (k : FloatKind) (gmax gmin x : spec_float) :
  INT8Spec.quantize k (S754_zero false) (S754_zero true) gmax gmin x = 0.
Proof.
  unfold INT8Spec.quantize, tf.maximum, tf.minimum.
  cbn [f_cast f_div f_sub f_mul f_add f_round f_lt f_trunc IEEE.numeric].
  cbn [IEEE.cast SFsub].
  set (nrm := SFdiv _ _ _ _). clearbody nrm.
  destruct nrm as [[|] | [|] | | [|] m e]; reflexivity.
Qed.

Lemma exact_quantize_empty_range (k : FloatKind) (gmax gmin x : Q) :
  INT8Spec.quantize k (INT8Spec.valid_max 128) (INT8Spec.valid_min 128)
                    gmax gmin x = 0.
Proof.
  unfold INT8Spec.quantize, tf.maximum, tf.minimum.
  cbn [f_cast f_div f_sub f_mul f_add f_round f_lt f_trunc Exact.numeric].
  change (INT8Spec.valid_max (F := Q) 128) with (0 # 128)%Q.
  change (INT8Spec.valid_min (F := Q) 128) with (0 # 128)%Q.
  set (nrm := ((x - gmin) / (gmax - gmin))%Q). clearbody nrm.
  assert (E : (nrm * ((0 # 128) - (0 # 128)) + (0 # 128) == 0)%Q) by ring.
  rewrite (ExactFacts.rint_eq _ _ E). reflexivity.
Qed.

(** C10.  For every floating tensor and every [global_max > global_min],
    [INT8Compressor.compress] with [horovod_size = 128] has
    [valid_max = valid_min = 0] (the zeros [+0.0] and [-0.0] under IEEE
    arithmetic) and returns the all-zero int8 tensor of the same shape,
    whatever the elements of the input are -- under IEEE arithmetic, NaN and
    the infinities included, and in exact arithmetic. *)
Theorem int8_compress_128_peers_all_zero :
  forall (k : FloatKind) (s : list nat)
         (l : list spec_float) (gmax gmin : spec_float)
         (lq : list Q) (qmax qmin : Q),
    SFltb gmin gmax = true ->
    (qmin < qmax)%Q ->
    (INT8Compressor.valid_max 128 = Ok (PyFloat (S754_zero false)) /\
     INT8Compressor.valid_min 128 = Ok (PyFloat (S754_zero true)) /\
     INT8Compressor.compress (TFloat k s l) 128 gmax gmin
     = Ok (TInt I8 s (map (fun _ => 0) l), PyDType (DFloat k))) /\
    (exists vmax vmin : Q,
        INT8Compressor.valid_max 128 = Ok (PyFloat vmax) /\
        INT8Compressor.valid_min 128 = Ok (PyFloat vmin) /\
        (vmax == 0)%Q /\ (vmin == 0)%Q) /\
    INT8Compressor.compress (TFloat k s lq) 128 qmax qmin
    = Ok (TInt I8 s (map (fun _ => 0) lq), PyDType (DFloat k)).
Proof.
  intros k s l gmax gmin lq qmax qmin _ _.
  assert (Hz : 128 <> 0) by discriminate.
  split; [| split].
  - split; [reflexivity |]. split; [reflexivity |].
    rewrite (compress_elementwise _ _ _ _ Hz). cbn [INT8SpecTensor.compress dtype].
    destruct ieee_valid_range_128 as [-> ->].
    do 3 f_equal. apply map_ext. intros x. apply ieee_quantize_empty_range.
  - exists (0 # 128)%Q, (0 # 128)%Q. repeat split.
  - rewrite (compress_elementwise _ _ _ _ Hz). cbn [INT8SpecTensor.compress dtype].
    do 3 f_equal. apply map_ext. intros x. apply exact_quantize_empty_range.
Qed.

Lemma int8_compress_128_peers_all_zero_witness :
  INT8Compressor.compress
    (TFloat F32 [3%nat]
            [IEEE.lit F32 1 (-1); S754_infinity false; IEEE.lit F32 (-7) 2])
    128 (IEEE.lit F64 1 0) (IEEE.lit F64 (-1) 0)
  = Ok (TInt I8 [3%nat] [0; 0; 0], PyDType float32).
Proof.
  apply (int8_compress_128_peers_all_zero F32 [3%nat]
           [IEEE.lit F32 1 (-1); S754_infinity false; IEEE.lit F32 (-7) 2]
           (IEEE.lit F64 1 0) (IEEE.lit F64 (-1) 0)
           [(1 # 2)%Q] 1%Q (-1)%Q);
    reflexivity.
Defined.

(** ** Values outside the range *)


(** * Further properties of the compressors *)

(** ** Errors *)

(** X1.  [INT8Compressor.compress] raises exactly when the tensor is floating
    and [horovod_size] is 0, and then it is [ZeroDivisionError]; in every
    other case -- a non-floating tensor with [horovod_size = 0] included -- it
    returns the payload the elementwise description gives. *)
Theorem int8_compress_raises_only_on_zero_peers :
  forall (F : Type) (N : Numeric F) (t : Tensor F) (n : Z) (gmax gmin : F),
    INT8Compressor.compress t n gmax gmin
    = if is_floating (dtype t) && (n =? 0)
      then Raise ZeroDivisionError
      else Ok (INT8SpecTensor.compress t n gmax gmin).
Proof.
  intros F N t n gmax gmin.
  destruct t as [k s l | k s l]; [| reflexivity].
  cbn [dtype is_floating andb].
  destruct (Z.eqb_spec n 0) as [-> | Hn].
  - reflexivity.
  - now apply compress_elementwise.
Qed.

(** X2.  The context [NoneCompressor.compress] produces is rejected by the
    [decompress] of the two other strategies with [AttributeError], whatever
    the tensor; the contexts [FP16Compressor.compress] and
    [INT8Compressor.compress] produce are accepted by every [decompress], for
    any payload. *)
Theorem contexts_across_strategies :
  forall (F : Type) (N : Numeric F) (t u : Tensor F) (n : Z) (gmax gmin : F),
    n <> 0 ->
    let none_ctx := snd (NoneCompressor.compress t) in
    FP16Compressor.decompress u none_ctx = Raise AttributeError /\
    INT8Compressor.decompress u none_ctx gmax gmin = Raise AttributeError /\
    (exists p c,
        INT8Compressor.compress t n gmax gmin = Ok (p, c) /\
        c = snd (FP16Compressor.compress t) /\
        (exists r, FP16Compressor.decompress u c = Ok r) /\
        (exists r, INT8Compressor.decompress u c gmax gmin = Ok r) /\
        NoneCompressor.decompress u c = u).
Proof.
  intros F N t u n gmax gmin Hn none_ctx. subst none_ctx.
  split; [reflexivity |]. split; [reflexivity |].
  rewrite (compress_elementwise t n gmax gmin Hn).
  exists (fst (INT8SpecTensor.compress t n gmax gmin)), (PyDType (dtype t)).
  split; [destruct t; reflexivity |]. split; [reflexivity |].
  split; [eexists; reflexivity |]. split; [| reflexivity].
  rewrite decompress_elementwise. eexists; reflexivity.
Qed.

Lemma contexts_across_strategies_witness :
  FP16Compressor.decompress
    (TInt (F := spec_float) I8 [] [64])
    (snd (NoneCompressor.compress (Scenario.holding F32 1 (-1))))
  = Raise AttributeError.
Proof.
  apply (contexts_across_strategies spec_float IEEE.numeric
           (Scenario.holding F32 1 (-1)) (TInt I8 [] [64]) 1
           (IEEE.lit F64 1 0) (IEEE.lit F64 (-1) 0)).
  discriminate.
Defined.

(** ** Shape, dtype and size *)

(** X3.  With [horovod_size <> 0], in any numeric runtime:
    [INT8Compressor.compress] keeps the shape and the number of elements, its
    payload is an int8 tensor when the input is floating, and its context is
    the input's dtype; decompressing the payload under that context succeeds
    and gives a tensor with the dtype, the shape and the number of elements of
    the input. *)
Theorem int8_roundtrip_preserves_layout :
  forall (F : Type) (N : Numeric F) (t : Tensor F) (n : Z) (gmax gmin : F),
    n <> 0 ->
    exists p r,
      INT8Compressor.compress t n gmax gmin = Ok (p, PyDType (dtype t)) /\
      shape p = shape t /\ numel p = numel t /\
      dtype p = (if is_floating (dtype t) then int8 else dtype t) /\
      INT8Compressor.decompress p (PyDType (dtype t)) gmax gmin = Ok r /\
      Scenario.roundtrip t n gmax gmin = Ok r /\
      dtype r = dtype t /\ shape r = shape t /\ numel r = numel t.
Proof.
  intros F N t n gmax gmin Hn.
  unfold Scenario.roundtrip.
  rewrite (compress_elementwise t n gmax gmin Hn).
  exists (fst (INT8SpecTensor.compress t n gmax gmin)),
    (INT8SpecTensor.decompress (fst (INT8SpecTensor.compress t n gmax gmin))
                               (dtype t) gmax gmin).
  destruct t as [k s l | k s l];
    cbn [INT8SpecTensor.compress dtype bind fst snd];
    rewrite decompress_elementwise;
    cbn [INT8SpecTensor.decompress INT8SpecTensor.elems_as shape numel dtype
         is_floating];
    rewrite ?length_map; repeat split.
Qed.

Lemma int8_roundtrip_preserves_layout_witness :
  exists p r,
    INT8Compressor.compress (TFloat F16 [2%nat; 1%nat]
                               [IEEE.lit F16 1 (-1); IEEE.lit F16 3 0])
                            2 (IEEE.lit F64 1 0) (IEEE.lit F64 (-1) 0)
    = Ok (p, PyDType float16) /\
    shape p = [2%nat; 1%nat] /\ numel p = 2%nat /\ dtype p = int8 /\
    INT8Compressor.decompress p (PyDType float16) (IEEE.lit F64 1 0)
                              (IEEE.lit F64 (-1) 0) = Ok r /\
    Scenario.roundtrip (TFloat F16 [2%nat; 1%nat]
                               [IEEE.lit F16 1 (-1); IEEE.lit F16 3 0])
                       2 (IEEE.lit F64 1 0) (IEEE.lit F64 (-1) 0) = Ok r /\
    dtype r = float16 /\ shape r = [2%nat; 1%nat] /\ numel r = 2%nat.
Proof.
  apply (int8_roundtrip_preserves_layout spec_float IEEE.numeric
           (TFloat F16 [2%nat; 1%nat] [IEEE.lit F16 1 (-1); IEEE.lit F16 3 0])
           2 (IEEE.lit F64 1 0) (IEEE.lit F64 (-1) 0)).
  discriminate.
Defined.

(** X4.  Each element is quantized on its own: with [horovod_size <> 0], the
    payload element at position [i] of any floating tensor is the payload of
    the one-element tensor that holds the input element at position [i]; no
    other element and no position enters it. *)
Theorem int8_compress_is_elementwise :
  forall (F : Type) (N : Numeric F) (k : FloatKind) (s : list nat) (l : list F)
         (n : Z) (gmax gmin : F) (i : nat) (x : F),
    n <> 0 ->
    nth_error l i = Some x ->
    exists p q,
      INT8Compressor.compress (TFloat k s l) n gmax gmin
      = Ok (TInt I8 s p, PyDType (DFloat k)) /\
      INT8Compressor.compress (TFloat k [] [x]) n gmax gmin
      = Ok (TInt I8 [] [q], PyDType (DFloat k)) /\
      nth_error p i = Some q.
Proof.
  intros F N k s l n gmax gmin i x Hn Hx.
  rewrite !(compress_elementwise _ n gmax gmin Hn).
  cbn [INT8SpecTensor.compress dtype map].
  eexists; eexists. split; [reflexivity |]. split; [reflexivity |].
  now apply map_nth_error.
Qed.

Lemma int8_compress_is_elementwise_witness :
  exists p q,
    INT8Compressor.compress (TFloat F32 [2%nat] [5; 1 # 2]%Q) 1 1%Q (-1)%Q
    = Ok (TInt I8 [2%nat] p, PyDType float32) /\
    INT8Compressor.compress (TFloat F32 [] [1 # 2]%Q) 1 1%Q (-1)%Q
    = Ok (TInt I8 [] [q], PyDType float32) /\
    nth_error p 1 = Some q.
Proof.
  apply (int8_compress_is_elementwise Q Exact.numeric F32 [2%nat] [5; 1 # 2]%Q
           1 1%Q (-1)%Q 1%nat (1 # 2)%Q).
  - discriminate.
  - reflexivity.
Defined.

(** ** FP16 on values beyond half precision *)

Lemma digits2_pos_bounds (m : positive) :
  2 ^ (Zpos (digits2_pos m) - 1) <= Zpos m < 2 ^ Zpos (digits2_pos m).
Proof.
  induction m as [m IH | m IH |]; cbn [digits2_pos].
  - rewrite Pos2Z.inj_succ.
    replace (Z.succ (Zpos (digits2_pos m)) - 1) with (Z.succ (Zpos (digits2_pos m) - 1)) by lia.
    rewrite !Z.pow_succ_r by lia. lia.
  - rewrite Pos2Z.inj_succ.
    replace (Z.succ (Zpos (digits2_pos m)) - 1) with (Z.succ (Zpos (digits2_pos m) - 1)) by lia.
    rewrite !Z.pow_succ_r by lia. lia.
  - cbn. lia.
Qed.

Lemma digits2_pos_unique (m : positive) (d : Z) :
  2 ^ (d - 1) <= Zpos m < 2 ^ d -> Zpos (digits2_pos m) = d.
Proof.
  intros [Hlo Hhi]. pose proof (digits2_pos_bounds m) as [Blo Bhi].
  assert (Hd : 0 < d).
  { destruct (Z_lt_le_dec 0 d) as [H | H]; [exact H |].
    destruct (Z.eq_dec d 0) as [-> | Hne]; [cbn in Hhi; lia |].
    rewrite Z.pow_neg_r in Hhi by lia. lia. }
  assert (H1 : d - 1 < Zpos (digits2_pos m)).
  { apply (Z.pow_lt_mono_r_iff 2); lia. }
  assert (H2 : Zpos (digits2_pos m) - 1 < d).
  { apply (Z.pow_lt_mono_r_iff 2); lia. }
  lia.
Qed.

Lemma shr_1_m (r : shr_record) :
  0 <= shr_m r -> shr_m (shr_1 r) = shr_m r / 2.
Proof.
  destruct r as [m b c]. cbn [shr_m]. intros Hm.
  destruct m as [| [p | p |] | p]; cbn [shr_1 shr_m];
    try reflexivity; try lia.
  - apply Z.div_unique with 1; lia.
  - apply Z.div_unique with 0; lia.
Qed.

Lemma iter_shr_1_m (n : positive) (r : shr_record) :
  0 <= shr_m r -> shr_m (iter_pos shr_1 n r) = shr_m r / 2 ^ Zpos n.
Proof.
  revert r. induction n as [n IH | n IH |]; intros r Hr; cbn [iter_pos];
    try assert (Hp : 0 < 2 ^ Zpos n) by (apply Z.pow_pos_nonneg; lia).
  - assert (H1 : 0 <= shr_m (shr_1 r)).
    { rewrite shr_1_m by exact Hr. apply Z.div_pos; lia. }
    assert (H2 : 0 <= shr_m (iter_pos shr_1 n (shr_1 r))).
    { rewrite IH by exact H1. apply Z.div_pos; lia. }
    assert (P : 2 ^ Zpos n~1 = 2 * 2 ^ Zpos n * 2 ^ Zpos n).
    { replace (Zpos n~1) with (Z.succ (Zpos n + Zpos n)) by lia.
      rewrite Z.pow_succ_r, Z.pow_add_r by lia. ring. }
    rewrite IH by exact H2. rewrite IH by exact H1. rewrite shr_1_m by exact Hr.
    rewrite (Z.div_div (shr_m r) 2 (2 ^ Zpos n)) by lia.
    rewrite Z.div_div by lia. now rewrite P.
  - assert (H2 : 0 <= shr_m (iter_pos shr_1 n r)).
    { rewrite IH by exact Hr. apply Z.div_pos; lia. }
    assert (P : 2 ^ Zpos n~0 = 2 ^ Zpos n * 2 ^ Zpos n).
    { replace (Zpos n~0) with (Zpos n + Zpos n) by lia.
      rewrite Z.pow_add_r by lia. ring. }
    rewrite IH by exact H2. rewrite IH by exact Hr.
    rewrite Z.div_div by lia. now rewrite P.
  - rewrite shr_1_m by exact Hr. reflexivity.
Qed.

Lemma round_nearest_even_bounds (q : Z) (l : location) :
  q <= round_nearest_even q l <= q + 1.
Proof.
  destruct l as [| []]; cbn [round_nearest_even]; try lia.
  destruct (Z.even q); lia.
Qed.

(** A finite float of more than 11 significant bits and of magnitude at
    least [2^16] has no half-precision neighbour: it re-rounds to an
    infinity. *)
Lemma ieee_cast_half_overflow (s : bool) (m : positive) (e : Z) :
  11 < Zpos (digits2_pos m) ->
  17 <= e + Zpos (digits2_pos m) ->
  IEEE.cast F16 (S754_finite s m e) = S754_infinity s.
Proof.
  intros Hd He. pose proof (digits2_pos_bounds m) as [Blo Bhi].
  set (d := Zpos (digits2_pos m)) in *.
  cbn [IEEE.cast IEEE.prec IEEE.emax].
  assert (Hf : forall dg e', 6 <= dg + e' - 11 -> fexp 11 16 (dg + e') = dg + e' - 11).
  { intros dg e' H. unfold fexp, emin. lia. }
  destruct (d - 11) as [| p | p] eqn:Ep; try lia.
  unfold binary_round, shl_align. fold d. rewrite (Hf d e) by lia.
  replace (d + e - 11 - e) with (Zpos p) by lia.
  unfold binary_round_aux.
  assert (S1 : shr_fexp 11 16 (Zpos m) e loc_Exact
               = (iter_pos shr_1 p (Build_shr_record (Zpos m) false false),
                  e + Zpos p)).
  { unfold shr_fexp. cbn [Zdigits2 shr_record_of_loc]. fold d.
    rewrite (Hf d e) by lia. replace (d + e - 11 - e) with (Zpos p) by lia.
    reflexivity. }
  rewrite S1.
  set (mrs := iter_pos shr_1 p _).
  assert (Hq : shr_m mrs = Zpos m / 2 ^ Zpos p).
  { unfold mrs. rewrite iter_shr_1_m; cbn [shr_m]; [reflexivity | lia]. }
  assert (Hp2 : 0 < 2 ^ Zpos p) by (apply Z.pow_pos_nonneg; lia).
  assert (Hpow1 : 2 ^ (d - 1) = 2 ^ Zpos p * 2 ^ 10).
  { rewrite <- Z.pow_add_r by lia. f_equal. lia. }
  assert (Hpow2 : 2 ^ d = 2 ^ Zpos p * 2 ^ 11).
  { rewrite <- Z.pow_add_r by lia. f_equal. lia. }
  assert (Hq1 : 2 ^ 10 <= shr_m mrs).
  { rewrite Hq. apply Z.div_le_lower_bound; lia. }
  assert (Hq2 : shr_m mrs < 2 ^ 11).
  { rewrite Hq. apply Z.div_lt_upper_bound; lia. }
  pose proof (round_nearest_even_bounds (shr_m mrs) (loc_of_shr_record mrs))
    as [R1 R2].
  destruct (round_nearest_even (shr_m mrs) (loc_of_shr_record mrs))
    as [| r | r] eqn:Er; try lia.
  destruct (Z_lt_le_dec (Zpos r) (2 ^ 11)) as [Hr | Hr].
  - assert (Dr : Zpos (digits2_pos r) = 11).
    { apply digits2_pos_unique. change (11 - 1) with 10. lia. }
    unfold shr_fexp. cbn [Zdigits2 shr_record_of_loc]. rewrite Dr.
    rewrite (Hf 11 (e + Zpos p)) by lia.
    replace (11 + (e + Zpos p) - 11 - (e + Zpos p)) with 0 by lia.
    cbn [shr shr_m].
    destruct (Z.leb_spec (e + Zpos p) (16 - 11)); [lia | reflexivity].
  - assert (Dr : Zpos (digits2_pos r) = 12).
    { apply digits2_pos_unique. change (12 - 1) with 11.
      change (2 ^ 12) with (2 * 2 ^ 11). lia. }
    unfold shr_fexp. cbn [Zdigits2 shr_record_of_loc]. rewrite Dr.
    rewrite (Hf 12 (e + Zpos p)) by lia.
    replace (12 + (e + Zpos p) - 11 - (e + Zpos p)) with 1 by lia.
    cbn [shr iter_pos].
    assert (Hh : shr_m (shr_1 (Build_shr_record (Zpos r) false false))
                 = Zpos r / 2).
    { apply shr_1_m. cbn [shr_m]. lia. }
    assert (Hh1 : 1 <= Zpos r / 2) by (apply Z.div_le_lower_bound; lia).
    destruct (shr_m (shr_1 (Build_shr_record (Zpos r) false false)))
      as [| h | h]; try lia.
    destruct (Z.leb_spec (e + Zpos p + 1) (16 - 11)); [lia | reflexivity].
Qed.

Lemma beyond_half_magnitude (x : spec_float) :
  beyond_half x = true -> 2 ^ 16 <= Z.abs (IEEE.trunc x).
Proof.
  destruct x as [s | s | | s m e]; try discriminate.
  cbn [beyond_half]. intros H. apply andb_true_iff in H. destruct H as [Hd He].
  apply Z.ltb_lt in Hd. apply Z.leb_le in He.
  pose proof (digits2_pos_bounds m) as [Blo _].
  set (d := Zpos (digits2_pos m)) in *.
  assert (Ha : forall z, Z.abs (cond_Zopp s z) = Z.abs z).
  { intros z. destruct s; cbn [cond_Zopp]; lia. }
  destruct e as [| p | p]; cbn [IEEE.trunc]; rewrite Ha.
  - rewrite Z.abs_eq by lia. change (2 ^ 0) with 1. rewrite Z.mul_1_r.
    apply Z.le_trans with (2 ^ (d - 1)); [| exact Blo].
    apply Z.pow_le_mono_r; lia.
  - assert (Hp : 0 < 2 ^ Zpos p) by (apply Z.pow_pos_nonneg; lia).
    assert (Hm : 2 ^ (d - 1) * 2 ^ Zpos p <= Zpos m * 2 ^ Zpos p).
    { apply Z.mul_le_mono_nonneg_r; lia. }
    rewrite <- Z.pow_add_r in Hm by lia.
    rewrite Z.abs_eq by lia.
    apply Z.le_trans with (2 ^ (d - 1 + Zpos p)); [| exact Hm].
    apply Z.pow_le_mono_r; lia.
  - assert (Hp : 0 < 2 ^ Zpos p) by (apply Z.pow_pos_nonneg; lia).
    assert (Hq : 2 ^ 16 <= Zpos m / 2 ^ Zpos p).
    { apply Z.div_le_lower_bound; [exact Hp |].
      rewrite <- Z.pow_add_r by lia.
      apply Z.le_trans with (2 ^ (d - 1)); [| exact Blo].
      apply Z.pow_le_mono_r; lia. }
    rewrite Z.abs_eq by lia. exact Hq.
Qed.

(** X14.  Under IEEE arithmetic, [FP16Compressor.compress] turns every finite
    element of more than 11 significant bits and of magnitude at least
    [2^16] = 65536 into the infinity of its sign, and [decompress] returns
    that infinity: values beyond half precision are neither clipped nor
    reported, they come back infinite. *)
Theorem fp16_overflows_to_infinity :
  forall (k : FloatKind) (s : list nat) (l : list spec_float),
    Forall (fun x => beyond_half x = true) l ->
    FP16Compressor.compress (TFloat k s l)
    = (TFloat F16 s (map overflowed l), PyDType (DFloat k)) /\
    FP16Compressor.decompress (fst (FP16Compressor.compress (TFloat k s l)))
                              (snd (FP16Compressor.compress (TFloat k s l)))
    = Ok (TFloat k s (map overflowed l)) /\
    Forall (fun x => 2 ^ 16 <= Z.abs (IEEE.trunc x)) l /\
    Forall (fun y => y = S754_infinity false \/ y = S754_infinity true)
           (map overflowed l).
Proof.
  intros k s l Hl.
  assert (E : map (f_cast F16) l = map overflowed l).
  { induction Hl as [| x l Hx _ IH]; cbn [map]; [reflexivity |].
    f_equal; [| exact IH].
    destruct x as [sg | sg | | sg m e]; try discriminate.
    cbn [beyond_half] in Hx. apply andb_true_iff in Hx. destruct Hx as [Hd He].
    apply Z.ltb_lt in Hd. apply Z.leb_le in He.
    now apply ieee_cast_half_overflow. }
  assert (I : Forall (fun y => y = S754_infinity false \/ y = S754_infinity true)
                     (map overflowed l)).
  { clear E. induction Hl as [| x l Hx _ IH]; cbn [map]; constructor.
    - destruct x as [sg | sg | | [|] m e]; try discriminate; cbn; auto.
    - exact IH. }
  assert (E2 : forall k', map (f_cast k') (map overflowed l) = map overflowed l).
  { intros k'. clear E. induction I as [| y r Hy _ IH]; cbn [map]; [reflexivity |].
    f_equal; [| exact IH]. destruct Hy as [-> | ->]; reflexivity. }
  unfold FP16Compressor.compress, FP16Compressor.decompress.
  cbn [dtype is_floating tf.cast float16 fst snd as_dtype bind].
  rewrite E, E2. split; [reflexivity |]. split; [reflexivity |].
  split; [| exact I].
  apply Forall_forall. intros x Hx. apply beyond_half_magnitude.
  rewrite Forall_forall in Hl. now apply Hl.
Qed.

Lemma fp16_overflows_to_infinity_witness :
  FP16Compressor.compress
    (TFloat F32 [2%nat] [IEEE.lit F32 1 16; IEEE.lit F32 (-100000) 0])
  = (TFloat F16 [2%nat] [S754_infinity false; S754_infinity true],
     PyDType float32).
Proof.
  apply (fp16_overflows_to_infinity F32 [2%nat]
           [IEEE.lit F32 1 16; IEEE.lit F32 (-100000) 0]).
  apply Forall_cons; [reflexivity |].
  apply Forall_cons; [reflexivity |].
  apply Forall_nil.
Defined.


(** ** Rounding integers to a format *)

Lemma digits2_pos_iter_xO (m j : positive) :
  digits2_pos (Pos.iter xO m j) = (digits2_pos m + j)%positive.
Proof.
  induction j as [| j IH] using Pos.peano_ind.
  - cbn. now rewrite Pos.add_1_r.
  - rewrite Pos.iter_succ. cbn [digits2_pos]. rewrite IH. lia.
Qed.

(** A mantissa that is canonical at its exponent is left alone by the
    rounding; only the exponent bound decides between the float and the
    infinity. *)
Lemma round_aux_canonical (p em : Z) (s : bool) (m : positive) (e : Z) :
  canonical_mantissa p em m e = true ->
  binary_round_aux p em s (Zpos m) e loc_Exact
  = if e <=? em - p then S754_finite s m e else S754_infinity s.
Proof.
  unfold canonical_mantissa. intros Hc. apply Z.eqb_eq in Hc.
  unfold binary_round_aux, shr_fexp. cbn [Zdigits2 shr_record_of_loc].
  rewrite Hc, Z.sub_diag. cbn [shr shr_m loc_of_shr_record round_nearest_even].
  cbn [Zdigits2]. rewrite Hc, Z.sub_diag. cbn [shr shr_m]. reflexivity.
Qed.

(** A mantissa wider than the precision is shifted right; the result is an
    infinity or a float whose exponent is at least the shifted one. *)
Lemma round_aux_wide (p em : Z) (s : bool) (m : positive) (e : Z) :
  0 < p ->
  p < Zpos (digits2_pos m) ->
  3 - em - p <= Zpos (digits2_pos m) + e - p ->
  binary_round_aux p em s (Zpos m) e loc_Exact = S754_infinity s \/
  exists m' e',
    binary_round_aux p em s (Zpos m) e loc_Exact = S754_finite s m' e' /\
    Zpos (digits2_pos m) + e - p <= e'.
Proof.
  intros Hp Hd Hmin. pose proof (digits2_pos_bounds m) as [Blo Bhi].
  set (d := Zpos (digits2_pos m)) in *.
  assert (Hf : forall dg e', 3 - em - p <= dg + e' - p ->
                             fexp p em (dg + e') = dg + e' - p).
  { intros dg e' H. unfold fexp, emin. lia. }
  destruct (d - p) as [| j | j] eqn:Ej; try lia.
  unfold binary_round_aux.
  assert (S1 : shr_fexp p em (Zpos m) e loc_Exact
               = (iter_pos shr_1 j (Build_shr_record (Zpos m) false false),
                  e + Zpos j)).
  { unfold shr_fexp. cbn [Zdigits2 shr_record_of_loc]. fold d.
    rewrite (Hf d e) by lia. replace (d + e - p - e) with (Zpos j) by lia.
    reflexivity. }
  rewrite S1.
  set (mrs := iter_pos shr_1 j _).
  assert (Hq : shr_m mrs = Zpos m / 2 ^ Zpos j).
  { unfold mrs. rewrite iter_shr_1_m; cbn [shr_m]; [reflexivity | lia]. }
  assert (Hp2 : 0 < 2 ^ Zpos j) by (apply Z.pow_pos_nonneg; lia).
  assert (Hpp : 0 < 2 ^ (p - 1)) by (apply Z.pow_pos_nonneg; lia).
  assert (Hpow1 : 2 ^ (d - 1) = 2 ^ Zpos j * 2 ^ (p - 1)).
  { rewrite <- Z.pow_add_r by lia. f_equal. lia. }
  assert (Hpow2 : 2 ^ d = 2 ^ Zpos j * 2 ^ p).
  { rewrite <- Z.pow_add_r by lia. f_equal. lia. }
  assert (Hpow3 : 2 ^ p = 2 * 2 ^ (p - 1)).
  { rewrite <- Z.pow_succ_r by lia. f_equal. lia. }
  assert (Hq1 : 2 ^ (p - 1) <= shr_m mrs).
  { rewrite Hq. apply Z.div_le_lower_bound; lia. }
  assert (Hq2 : shr_m mrs < 2 ^ p).
  { rewrite Hq. apply Z.div_lt_upper_bound; lia. }
  pose proof (round_nearest_even_bounds (shr_m mrs) (loc_of_shr_record mrs))
    as [R1 R2].
  destruct (round_nearest_even (shr_m mrs) (loc_of_shr_record mrs))
    as [| r | r] eqn:Er; try lia.
  destruct (Z_lt_le_dec (Zpos r) (2 ^ p)) as [Hr | Hr].
  - assert (Dr : Zpos (digits2_pos r) = p).
    { apply digits2_pos_unique. lia. }
    unfold shr_fexp. cbn [Zdigits2 shr_record_of_loc]. rewrite Dr.
    rewrite (Hf p (e + Zpos j)) by lia.
    replace (p + (e + Zpos j) - p - (e + Zpos j)) with 0 by lia.
    cbn [shr shr_m].
    destruct (Z.leb_spec (e + Zpos j) (em - p)).
    + right. exists r, (e + Zpos j). split; [reflexivity | lia].
    + now left.
  - assert (Dr : Zpos (digits2_pos r) = p + 1).
    { apply digits2_pos_unique. replace (p + 1 - 1) with p by lia.
      replace (2 ^ (p + 1)) with (2 * 2 ^ p); [lia |].
      rewrite <- Z.pow_succ_r by lia. f_equal. }
    unfold shr_fexp. cbn [Zdigits2 shr_record_of_loc]. rewrite Dr.
    rewrite (Hf (p + 1) (e + Zpos j)) by lia.
    replace (p + 1 + (e + Zpos j) - p - (e + Zpos j)) with 1 by lia.
    cbn [shr iter_pos].
    assert (Hh : shr_m (shr_1 (Build_shr_record (Zpos r) false false))
                 = Zpos r / 2).
    { apply shr_1_m. cbn [shr_m]. lia. }
    assert (Hh1 : 1 <= Zpos r / 2) by (apply Z.div_le_lower_bound; lia).
    destruct (shr_m (shr_1 (Build_shr_record (Zpos r) false false)))
      as [| h | h]; try lia.
    destruct (Z.leb_spec (e + Zpos j + 1) (em - p)).
    + right. exists h, (e + Zpos j + 1). split; [reflexivity | lia].
    + now left.
Qed.

(** An integer from 128 on, rounded to the format of any floating dtype, is
    an infinity or a float whose exponent is at least [8 - prec]. *)
Lemma round_big_integer (k : FloatKind) (s : bool) (z : positive) :
  128 <= Zpos z ->
  binary_round (IEEE.prec k) (IEEE.emax k) s z 0 = S754_infinity s \/
  exists m e,
    binary_round (IEEE.prec k) (IEEE.emax k) s z 0 = S754_finite s m e /\
    8 - IEEE.prec k <= e.
Proof.
  intros Hz. pose proof (digits2_pos_bounds z) as [Blo Bhi].
  set (p := IEEE.prec k). set (em := IEEE.emax k).
  assert (Hp : 8 <= p) by (destruct k; cbn; lia).
  assert (Hem : 16 <= em) by (destruct k; cbn; lia).
  set (d := Zpos (digits2_pos z)) in *.
  assert (Hd : 8 <= d).
  { destruct (Z_lt_le_dec d 8) as [H | H]; [| exact H].
    assert (2 ^ d <= 2 ^ 7) by (apply Z.pow_le_mono_r; lia).
    change (2 ^ 7) with 128 in *. lia. }
  unfold binary_round. fold d.
  assert (Hf : fexp p em (d + 0) = d - p).
  { unfold fexp, emin. lia. }
  rewrite Hf. unfold shl_align.
  destruct (d - p - 0) as [| j | j] eqn:Ej.
  - (* exactly [prec] digits *)
    rewrite round_aux_canonical.
    + destruct (0 <=? em - p); [right; exists z, 0; split; [reflexivity | lia]
                               | now left].
    + unfold canonical_mantissa. fold d. rewrite Hf. apply Z.eqb_eq. lia.
  - (* more digits than the precision *)
    destruct (round_aux_wide p em s z 0) as [H | (m' & e' & H & He)];
      fold d; try lia.
    + now left.
    + right. exists m', e'. split; [exact H | lia].
  - (* fewer digits: the mantissa is padded *)
    rewrite round_aux_canonical.
    + destruct (d - p <=? em - p);
        [right; eexists; eexists; split; [reflexivity | lia] | now left].
    + unfold canonical_mantissa. rewrite digits2_pos_iter_xO.
      rewrite Pos2Z.inj_add. fold d.
      assert (E : d + Zpos j + (d - p) = d + 0 + (d - p + Zpos j)) by lia.
      apply Z.eqb_eq. unfold fexp, emin. lia.
Qed.

(** ** The clip under IEEE arithmetic *)

(** The table of the usable ranges, run once per floating dtype. *)
Lemma range_table (k : FloatKind) :
  forallb (Range.row k) (Range.upto 128) = true.
Proof.
  destruct k; vm_compute; reflexivity.
Qed.

Lemma in_upto (n : nat) (z : Z) : 1 <= z <= Z.of_nat n -> In z (Range.upto n).
Proof.
  intros Hz. unfold Range.upto. apply in_map_iff.
  exists (Z.to_nat z). split; [lia |]. apply in_seq. lia.
Qed.

Lemma range_row (k : FloatKind) (n : Z) :
  1 <= n <= 128 -> Range.row k n = true.
Proof.
  intros Hn. pose proof (range_table k) as H.
  rewrite forallb_forall in H. apply H. apply in_upto. cbn. lia.
Qed.

(** The quantized element is the payload of its rounded scaled value. *)
Lemma quantize_by_steps (k : FloatKind) (vmax vmin gmax gmin x : spec_float) :
  INT8Spec.quantize k vmax vmin gmax gmin x
  = Range.payload_between (IEEE.cast k vmax) (IEEE.cast k vmin)
                          (INT8Steps.rounded k vmax vmin gmax gmin x).
Proof.
  reflexivity.
Qed.

(** The three ways through [tf.clip_by_value]. *)
Lemma payload_between_cases (hi lo r : spec_float) :
  Range.payload_between hi lo r
  = int_wrap I8
      (IEEE.trunc (if SFltb r hi
                   then (if SFltb lo r then r else lo)
                   else (if SFltb lo hi then hi else lo))).
Proof.
  unfold Range.payload_between, tf.maximum, tf.minimum.
  cbn [f_lt IEEE.numeric]. destruct (SFltb r hi); reflexivity.
Qed.

(** A float whose exponent is not small lies strictly between no small
    ends. *)
Lemma not_between_small (k : FloatKind) (hi lo : spec_float)
      (s : bool) (m : positive) (e : Z) :
  Range.small k false hi = true ->
  Range.small k true lo = true ->
  8 - IEEE.prec k <= e ->
  SFltb (S754_finite s m e) hi && SFltb lo (S754_finite s m e) = false.
Proof.
  intros Hhi Hlo He.
  destruct s.
  - (* negative: not above [lo] *)
    apply andb_false_iff. right.
    destruct lo as [sl | sl | | sl ml el]; try discriminate; [reflexivity |].
    cbn [Range.small] in Hlo. apply andb_true_iff in Hlo.
    destruct Hlo as [Hs Hel]. apply Z.ltb_lt in Hel.
    destruct sl; [| discriminate].
    unfold SFltb, SFcompare.
    destruct (Z.compare_spec el e); first [lia | reflexivity].
  - (* positive: not below [hi] *)
    apply andb_false_iff. left.
    destruct hi as [sh | sh | | sh mh eh]; try discriminate; [reflexivity |].
    cbn [Range.small] in Hhi. apply andb_true_iff in Hhi.
    destruct Hhi as [Hs Heh]. apply Z.ltb_lt in Heh.
    destruct sh; [discriminate |].
    unfold SFltb, SFcompare.
    destruct (Z.compare_spec e eh); first [lia | reflexivity].
Qed.

(** What a row of the table says, in plain terms. *)
Lemma row_facts (k : FloatKind) (n : Z) :
  Range.row k n = true ->
  let hi := Range.upper k n in
  let lo := Range.lower k n in
  let b := INT8Spec.boundary n in
  Range.small k false hi = true /\
  Range.small k true lo = true /\
  int_wrap I8 (IEEE.trunc (if SFltb lo hi then hi else lo)) = b /\
  int_wrap I8 (IEEE.trunc lo) = - b /\
  0 <= b <= 127 /\
  forall (s : bool) (z : Z),
    1 <= z <= 127 ->
    - b <= Range.payload_between hi lo (Range.rounded_int k s z) <= b.
Proof.
  intros Hrow. cbv zeta. unfold Range.row in Hrow. cbv zeta in Hrow.
  set (hi := Range.upper k n) in *. set (lo := Range.lower k n) in *.
  set (b := INT8Spec.boundary n) in *. clearbody hi lo b.
  apply andb_true_iff in Hrow. destruct Hrow as [Hrow Hints].
  apply andb_true_iff in Hrow. destruct Hrow as [Hrow Hb127].
  apply andb_true_iff in Hrow. destruct Hrow as [Hrow Hb0].
  apply andb_true_iff in Hrow. destruct Hrow as [Hrow Hlo].
  apply andb_true_iff in Hrow. destruct Hrow as [Hrow Hhi].
  apply andb_true_iff in Hrow. destruct Hrow as [Sh Sl].
  apply Z.leb_le in Hb127, Hb0. apply Z.eqb_eq in Hlo, Hhi.
  split; [exact Sh |]. split; [exact Sl |]. split; [exact Hhi |].
  split; [exact Hlo |]. split; [lia |].
  intros s z Hz. rewrite forallb_forall in Hints.
  assert (Hin : In z (Range.upto 127)) by (apply in_upto; cbn; lia).
  specialize (Hints z Hin). rewrite forallb_forall in Hints.
  assert (Hs : In s Range.signs) by (destruct s; cbn; auto).
  specialize (Hints s Hs). cbv zeta in Hints.
  apply andb_true_iff in Hints. destruct Hints as [H1 H2].
  apply Z.leb_le in H1, H2. lia.
Qed.

(** [rint_shift] of a positive mantissa is not negative. *)
Lemma rint_shift_nonneg (m pe : positive) : 0 <= IEEE.rint_shift (Zpos m) pe.
Proof.
  unfold IEEE.rint_shift.
  assert (Hp : 0 < 2 ^ Zpos pe) by (apply Z.pow_pos_nonneg; lia).
  assert (Hq : 0 <= Zpos m / 2 ^ Zpos pe) by (apply Z.div_pos; lia).
  destruct (2 * (Zpos m mod 2 ^ Zpos pe) ?= 2 ^ Zpos pe);
    try destruct (Z.even (Zpos m / 2 ^ Zpos pe)); lia.
Qed.

(** Whatever [tf.math.round] returns, the clip and the cast leave a payload
    between the two boundaries. *)
Lemma payload_of_rounded_in_range (k : FloatKind) (n : Z) (x : spec_float) :
  1 <= n <= 128 ->
  - INT8Spec.boundary n
  <= Range.payload_between (Range.upper k n) (Range.lower k n) (IEEE.round k x)
  <= INT8Spec.boundary n.
Proof.
  intros Hn.
  destruct (row_facts k n (range_row k n Hn)) as (Sh & Sl & Hhi & Hlo & Hb & Hints).
  set (hi := Range.upper k n) in *. set (lo := Range.lower k n) in *.
  set (b := INT8Spec.boundary n) in *. clearbody hi lo b.
  assert (Ends : forall r,
             SFltb r hi && SFltb lo r = false ->
             - b <= Range.payload_between hi lo r <= b).
  { intros r Hr. rewrite payload_between_cases. destruct (SFltb r hi).
    - cbn [andb] in Hr. rewrite Hr, Hlo. lia.
    - rewrite Hhi. lia. }
  assert (Nil : forall r,
             IEEE.trunc r = 0 -> - b <= Range.payload_between hi lo r <= b).
  { intros r Hr. rewrite payload_between_cases. destruct (SFltb r hi).
    - destruct (SFltb lo r); [rewrite Hr; change (int_wrap I8 0) with 0
                             | rewrite Hlo]; lia.
    - rewrite Hhi. lia. }
  assert (Hp8 : 8 - IEEE.prec k <= 0) by (destruct k; cbn; lia).
  destruct x as [s | s | | s m e]; cbn [IEEE.round];
    try (apply Nil; reflexivity).
  destruct e as [| pe | pe].
  - apply Ends. apply (not_between_small k); try assumption.
  - apply Ends. apply (not_between_small k); try assumption. lia.
  - (* a fraction is dropped: an integer is left *)
    pose proof (rint_shift_nonneg m pe) as Hnn.
    destruct (IEEE.rint_shift (Zpos m) pe) as [| z | z]; [| | lia].
    + destruct s; cbn [cond_Zopp Z.opp binary_normalize]; apply Nil; reflexivity.
    + destruct (Z_lt_le_dec (Zpos z) 128) as [Hsmall | Hbig].
      * (* below 128: the table *)
        apply (Hints s (Zpos z)). lia.
      * (* from 128 on: out of the range *)
        assert (Hr : binary_normalize (IEEE.prec k) (IEEE.emax k)
                                      (cond_Zopp s (Zpos z)) 0 s
                     = binary_round (IEEE.prec k) (IEEE.emax k) s z 0).
        { destruct s; reflexivity. }
        rewrite Hr.
        destruct (round_big_integer k s z Hbig) as [-> | (m' & e' & -> & He)].
        -- apply Nil. reflexivity.
        -- apply Ends. now apply (not_between_small k).
Qed.


Lemma crowded_table (k : FloatKind) :
  forallb (Range.crowded_row k) (map (Z.add 128) (Range.upto 896)) = true.
Proof.
  destruct k; vm_compute; reflexivity.
Qed.

(** One element through the clip. *)
Lemma quantize_clipped (k : FloatKind) (n : Z) (gmax gmin x : spec_float) :
  1 <= n <= 128 ->
  Range.clipped_to
    k n
    (INT8Steps.rounded k (INT8Spec.valid_max n) (INT8Spec.valid_min n) gmax gmin x)
    (INT8Spec.quantize k (INT8Spec.valid_max n) (INT8Spec.valid_min n)
                       gmax gmin x).
Proof.
  intros Hn. rewrite quantize_by_steps.
  change (IEEE.cast k (INT8Spec.valid_max n)) with (Range.upper k n).
  change (IEEE.cast k (INT8Spec.valid_min n)) with (Range.lower k n).
  unfold INT8Steps.rounded. cbn [f_round IEEE.numeric].
  set (x' := INT8Steps.scaled _ _ _ _ _ _). clearbody x'.
  split; [now apply payload_of_rounded_in_range |].
  destruct (row_facts k n (range_row k n Hn)) as (_ & _ & Hhi & Hlo & _ & _).
  rewrite payload_between_cases.
  destruct (SFltb (IEEE.round k x') (Range.upper k n)).
  - destruct (SFltb (Range.lower k n) (IEEE.round k x')); [exact I | exact Hlo].
  - exact Hhi.
Qed.

Lemma total_bounded (b : Z) (zs : list Z) :
  Forall (fun z => - b <= z <= b) zs ->
  - (b * Z.of_nat (length zs)) <= total zs <= b * Z.of_nat (length zs).
Proof.
  induction 1 as [| z zs Hz _ IH]; cbn [total fold_right length].
  - lia.
  - fold (total zs). lia.
Qed.

Lemma peers_times_boundary (n : Z) :
  1 <= n <= 128 -> INT8Spec.boundary n * n <= 128 - n.
Proof.
  intros Hn. unfold INT8Spec.boundary. change (2 ^ 7) with 128.
  assert (H : n * (128 / n) <= 128) by (apply Z.mul_div_le; lia).
  lia.
Qed.

(** Beyond 128 peers the range is inverted and the clip returns its lower
    end, whatever it is given. *)
Lemma payload_between_inverted (hi lo r : spec_float)
      (mh ml : positive) (eh el : Z) :
  hi = S754_finite true mh eh ->
  lo = S754_finite false ml el ->
  Range.payload_between hi lo r = int_wrap I8 (IEEE.trunc lo).
Proof.
  intros -> ->. rewrite payload_between_cases.
  destruct (SFltb r (S754_finite true mh eh)) eqn:E; [| reflexivity].
  destruct r as [[|] | [|] | | [|] m e];
    try discriminate E; reflexivity.
Qed.

(** ** Values outside the range, under IEEE arithmetic *)



(** ** Sums of payloads, under IEEE arithmetic *)

(** X6.  Under IEEE arithmetic, for every floating dtype and
    [1 <= horovod_size <= 128]: whatever values [horovod_size] peers (or
    fewer) hold at one position -- NaN and infinities included -- and whatever
    the range is, the plain sum of their payload elements is at most
    [128 - horovod_size] in absolute value, hence within [-127 .. 127]:
    summing the payloads cannot overflow int8. *)
Theorem int8_payload_sum_fits :
  forall (k : FloatKind) (xs : list spec_float) (n : Z)
         (gmax gmin : spec_float),
    1 <= n <= 128 ->
    Z.of_nat (length xs) <= n ->
    exists qs,
      Forall2 (fun x q =>
                 INT8Compressor.compress (TFloat k [] [x]) n gmax gmin
                 = Ok (TInt I8 [] [q], PyDType (DFloat k))) xs qs /\
      Z.abs (total qs) <= 128 - n /\
      -127 <= total qs <= 127.
Proof.
  intros k xs n gmax gmin Hn Hlen.
  assert (Hz : n <> 0) by lia.
  set (q := INT8Spec.quantize k (INT8Spec.valid_max n) (INT8Spec.valid_min n)
                              gmax gmin).
  exists (map q xs). split.
  - clear Hlen. induction xs as [| x xs IH]; cbn [map]; constructor.
    + now rewrite (compress_elementwise _ _ _ _ Hz).
    + exact IH.
  - assert (Hb : Forall (fun z => - INT8Spec.boundary n <= z
                                  <= INT8Spec.boundary n) (map q xs)).
    { apply Forall_forall. intros z Hin. apply in_map_iff in Hin.
      destruct Hin as (x & <- & _).
      apply (quantize_clipped k n gmax gmin x Hn). }
    apply total_bounded in Hb. rewrite length_map in Hb.
    pose proof (peers_times_boundary n Hn) as Hpb.
    destruct (row_facts k n (range_row k n Hn)) as (_ & _ & _ & _ & HB & _).
    assert (Hm : INT8Spec.boundary n * Z.of_nat (length xs)
                 <= INT8Spec.boundary n * n) by nia.
    lia.
Qed.

Lemma int8_payload_sum_fits_witness :
  exists qs,
    Forall2 (fun x q =>
               INT8Compressor.compress (TFloat F32 [] [x]) 4
                                       (IEEE.lit F64 4 0) (IEEE.lit F64 0 0)
               = Ok (TInt I8 [] [q], PyDType float32))
            [IEEE.lit F32 4 0; IEEE.lit F32 4 0; S754_infinity false;
             IEEE.lit F32 9 0] qs /\
    Z.abs (total qs) <= 128 - 4 /\
    -127 <= total qs <= 127.
Proof.
  apply (int8_payload_sum_fits F32
           [IEEE.lit F32 4 0; IEEE.lit F32 4 0; S754_infinity false;
            IEEE.lit F32 9 0] 4 (IEEE.lit F64 4 0) (IEEE.lit F64 0 0)).
  - lia.
  - cbn. lia.
Defined.

(** ** More than 128 peers, under IEEE arithmetic *)

(** X11.  Under IEEE arithmetic, for every floating dtype and
    [129 <= horovod_size <= 1024] the usable range is inverted
    ([valid_max < 0 < valid_min < 1]) and [INT8Compressor.compress] returns the
    all-zero int8 tensor for every floating tensor and every range, NaN and
    infinite elements included.  The upper bound matters: for a bfloat16
    tensor and [horovod_size = 100000], [valid_min] rounds to 1.0 and the
    payload of 1.0 over [-1.0 .. 1.0] is 1. *)
Theorem int8_compress_crowded_all_zero :
  forall (k : FloatKind) (s : list nat) (l : list spec_float) (n : Z)
         (gmax gmin : spec_float),
    129 <= n <= 1024 ->
    INT8Compressor.compress (TFloat k s l) n gmax gmin
    = Ok (TInt I8 s (map (fun _ => 0) l), PyDType (DFloat k)) /\
    INT8Compressor.compress (Scenario.holding BF16 1 0) 100000
                            (IEEE.lit F64 1 0) (IEEE.lit F64 (-1) 0)
    = Ok (TInt I8 [] [1], PyDType bfloat16).
Proof.
  intros k s l n gmax gmin Hn.
  assert (Hz : n <> 0) by lia.
  split; [| reflexivity].
  rewrite (compress_elementwise _ _ _ _ Hz). cbn [INT8SpecTensor.compress dtype].
  do 3 f_equal. apply map_ext. intros x.
  rewrite quantize_by_steps.
  change (IEEE.cast k (INT8Spec.valid_max n)) with (Range.upper k n).
  change (IEEE.cast k (INT8Spec.valid_min n)) with (Range.lower k n).
  pose proof (crowded_table k) as T. rewrite forallb_forall in T.
  assert (Hin : In n (map (Z.add 128) (Range.upto 896))).
  { apply in_map_iff. exists (n - 128). split; [lia |].
    apply in_upto. cbn. lia. }
  specialize (T n Hin). unfold Range.crowded_row in T.
  destruct (Range.upper k n) as [| | | [|] mh eh] eqn:Eh; try discriminate T.
  destruct (Range.lower k n) as [| | | [|] ml el] eqn:El; try discriminate T.
  apply Z.eqb_eq in T.
  rewrite (payload_between_inverted _ _ _ mh ml eh el eq_refl eq_refl).
  exact T.
Qed.

Lemma int8_compress_crowded_all_zero_witness :
  INT8Compressor.compress
    (TFloat F32 [2%nat] [IEEE.lit F32 5 0; S754_nan]) 200
    (IEEE.lit F64 1 0) (IEEE.lit F64 (-1) 0)
  = Ok (TInt I8 [2%nat] [0; 0], PyDType float32).
Proof.
  refine (proj1 (int8_compress_crowded_all_zero F32 [2%nat]
                   [IEEE.lit F32 5 0; S754_nan] 200
                   (IEEE.lit F64 1 0) (IEEE.lit F64 (-1) 0) _)).
  lia.
Defined.

(** ** FP16 on tensors that hold half-precision values *)

(** Re-rounding a float to a format it is already a value of changes
    nothing. *)
Lemma ieee_cast_valid (k : FloatKind) (x : spec_float) :
  valid_binary (IEEE.prec k) (IEEE.emax k) x = true -> IEEE.cast k x = x.
Proof.
  destruct x as [s | s | | s m e]; try reflexivity.
  cbn [valid_binary IEEE.cast]. unfold bounded.
  intros Hb. apply andb_true_iff in Hb. destruct Hb as [Hc He].
  unfold binary_round, shl_align.
  pose proof Hc as Hc'. unfold canonical_mantissa in Hc'. apply Z.eqb_eq in Hc'.
  rewrite Hc', Z.sub_diag. rewrite round_aux_canonical by exact Hc.
  now rewrite He.
Qed.

Lemma iter_pos_nat (A : Type) (f : A -> A) (n : positive) (x : A) :
  iter_pos f n x = Nat.iter (Pos.to_nat n) f x.
Proof.
  revert x. induction n as [n IH | n IH |]; intros x; cbn [iter_pos].
  - rewrite !IH, Pos2Nat.inj_xI.
    replace (S (2 * Pos.to_nat n)) with (S (Pos.to_nat n + Pos.to_nat n)) by lia.
    now rewrite Nat.iter_succ_r, Nat.iter_add.
  - rewrite !IH, Pos2Nat.inj_xO.
    replace (2 * Pos.to_nat n)%nat with (Pos.to_nat n + Pos.to_nat n)%nat by lia.
    now rewrite Nat.iter_add.
  - reflexivity.
Qed.

(** Shifting right the bits that were padded on the left gives the mantissa
    back, with nothing lost. *)
Lemma shr_padded (j m : positive) :
  iter_pos shr_1 j (Build_shr_record (Zpos (Pos.iter xO m j)) false false)
  = Build_shr_record (Zpos m) false false.
Proof.
  rewrite iter_pos_nat, Pos2Nat.inj_iter.
  change (nat_rect (fun _ => positive) m (fun _ => xO) (Pos.to_nat j))
    with (Nat.iter (Pos.to_nat j) xO m).
  induction (Pos.to_nat j) as [| i IH]; [reflexivity |].
  rewrite Nat.iter_succ_r. cbn [Nat.iter nat_rect shr_1 orb]. exact IH.
Qed.

(** A half-precision value widened to float32 or float64 and narrowed again
    is the value itself. *)
Lemma ieee_widen_narrow (k : FloatKind) (h : spec_float) :
  11 <= IEEE.prec k ->
  valid_binary (IEEE.prec F16) (IEEE.emax F16) h = true ->
  IEEE.cast F16 (IEEE.cast k h) = h.
Proof.
  intros Hk Hv.
  destruct (Z.eq_dec (IEEE.prec k) 11) as [E11 | N11].
  { assert (k = F16) by (destruct k; cbn in E11; congruence). subst k.
    now rewrite (ieee_cast_valid F16 h Hv), (ieee_cast_valid F16 h Hv). }
  assert (Hk2 : k = F32 \/ k = F64) by (destruct k; cbn in *; auto; lia).
  destruct h as [s | s | | s m e]; try reflexivity.
  cbn [valid_binary IEEE.prec IEEE.emax] in Hv. unfold bounded in Hv.
  apply andb_true_iff in Hv. destruct Hv as [Hc He].
  pose proof Hc as Hc'. unfold canonical_mantissa in Hc'.
  apply Z.eqb_eq in Hc'. apply Z.leb_le in He.
  set (d := Zpos (digits2_pos m)) in *.
  assert (Hd0 : 0 < d) by (unfold d; lia).
  assert (Hfe : d <= 11 /\ -24 <= e).
  { unfold fexp, emin in Hc'. lia. }
  set (p := IEEE.prec k) in *. set (em := IEEE.emax k) in *.
  assert (Hp : 11 < p) by lia.
  assert (Hem : 26 <= em) by (destruct Hk2; subst k; cbn; lia).
  assert (Hfk : forall dg e', dg + e' = d + e -> fexp p em (dg + e') = d + e - p).
  { intros dg e' H. rewrite H. unfold fexp, emin. lia. }
  destruct (p - d) as [| j | j] eqn:Ej; try lia.
  (* widening *)
  assert (W : IEEE.cast k (S754_finite s m e)
              = S754_finite s (Pos.iter xO m j) (d + e - p)).
  { cbn [IEEE.cast]. fold p em. unfold binary_round, shl_align. fold d.
    rewrite (Hfk d e eq_refl).
    replace (d + e - p - e) with (Zneg j) by lia.
    rewrite round_aux_canonical.
    - destruct (Z.leb_spec (d + e - p) (em - p)); [reflexivity | lia].
    - unfold canonical_mantissa. rewrite digits2_pos_iter_xO, Pos2Z.inj_add.
      fold d. apply Z.eqb_eq. apply Hfk. lia. }
  rewrite W.
  (* narrowing *)
  cbn [IEEE.cast IEEE.prec IEEE.emax].
  assert (Hf16 : forall dg e', dg + e' = d + e -> fexp 11 16 (dg + e') = e).
  { intros dg e' H. rewrite H. exact Hc'. }
  unfold binary_round, shl_align.
  rewrite digits2_pos_iter_xO, Pos2Z.inj_add. fold d.
  rewrite (Hf16 (d + Zpos j) (d + e - p)) by lia.
  replace (e - (d + e - p)) with (Zpos j) by lia.
  unfold binary_round_aux.
  assert (S1 : shr_fexp 11 16 (Zpos (Pos.iter xO m j)) (d + e - p) loc_Exact
               = (Build_shr_record (Zpos m) false false, e)).
  { unfold shr_fexp. cbn [Zdigits2 shr_record_of_loc].
    rewrite digits2_pos_iter_xO, Pos2Z.inj_add. fold d.
    rewrite (Hf16 (d + Zpos j) (d + e - p)) by lia.
    replace (e - (d + e - p)) with (Zpos j) by lia.
    cbn [shr]. rewrite shr_padded. f_equal. lia. }
  rewrite S1. cbn [shr_m loc_of_shr_record round_nearest_even].
  unfold shr_fexp. cbn [Zdigits2 shr_record_of_loc]. fold d.
  rewrite (Hf16 d e eq_refl), Z.sub_diag. cbn [shr shr_m].
  destruct (Z.leb_spec e (16 - 11)); [reflexivity | lia].
Qed.

(** X13.  Under IEEE arithmetic, a float16, float32 or float64 tensor that
    holds half-precision values -- a float16 tensor, or the upcast of one --
    goes through [FP16Compressor] without loss: the payload holds exactly
    those half-precision values, and [decompress] returns the tensor
    itself. *)
Theorem fp16_lossless_on_half_values :
  forall (k : FloatKind) (s : list nat) (halves : list spec_float),
    11 <= IEEE.prec k ->
    Forall (fun h => valid_binary (IEEE.prec F16) (IEEE.emax F16) h = true)
           halves ->
    let t := tf.cast (TFloat F16 s halves) (DFloat k) in
    t = TFloat k s (map (IEEE.cast k) halves) /\
    FP16Compressor.compress t = (TFloat F16 s halves, PyDType (DFloat k)) /\
    FP16Compressor.decompress (fst (FP16Compressor.compress t))
                              (snd (FP16Compressor.compress t))
    = Ok t.
Proof.
  intros k s halves Hk Hl t. subst t.
  cbn [tf.cast f_cast IEEE.numeric].
  assert (E : map (IEEE.cast F16) (map (IEEE.cast k) halves) = halves).
  { induction Hl as [| h l Hh _ IH]; cbn [map]; [reflexivity |].
    f_equal; [| exact IH]. now apply ieee_widen_narrow. }
  unfold FP16Compressor.compress, FP16Compressor.decompress.
  cbn [dtype is_floating tf.cast float16 fst snd as_dtype bind f_cast
       IEEE.numeric].
  rewrite E. repeat split.
Qed.

Lemma fp16_lossless_on_half_values_witness :
  FP16Compressor.compress
    (tf.cast (TFloat F16 [2%nat] [IEEE.lit F16 1 (-1); IEEE.lit F16 (-3) 4])
             float32)
  = (TFloat F16 [2%nat] [IEEE.lit F16 1 (-1); IEEE.lit F16 (-3) 4],
     PyDType float32).
Proof.
  refine (proj1 (proj2 (fp16_lossless_on_half_values F32 [2%nat]
                          [IEEE.lit F16 1 (-1); IEEE.lit F16 (-3) 4] _ _))).
  - cbn. lia.
  - apply Forall_cons; [reflexivity |].
    apply Forall_cons; [reflexivity |].
    apply Forall_nil.
Defined.
